(** * AIMS front end: mission store, data access, orbital mechanics, scene paths

    A shallow embedding of the computational core of the mission-planning
    front end, and the properties of its specification stated over it.

    Conventions of the embedding.
    - A JavaScript [number] that only passes through [+ - * /], comparisons,
      [Math.min], [Math.max], [Math.abs] and [Math.floor] is an exact rational
      ([Q]); rounding to binary64 is not modelled.  Where the code can meet
      [NaN], [Infinity] or [undefined] (optional telemetry fields, the time of
      an unparsable date) the value is a [JsNum.t], which adds those values to
      the rationals.
    - Integer quantities (millisecond time stamps, second counters, the start
      score) are [Z].
    - Functions built on [Math.sin], [Math.cos], [Math.atan2] and [Math.sqrt]
      are stated over the real numbers.
    - [Date.now()], [Math.random()], date parsing and the network are inputs:
      every read of them is an explicit argument of the embedded function.
    - [calculateSuccessProbability] is given a second time over binary64
      floats, bit for bit, to exhibit what overflow does. *)

From Stdlib Require Import ZArith QArith Qminmax Qabs Qround.
From Stdlib Require Import List String Ascii Bool Lia Lra Psatz.
From Stdlib Require Import DecimalString.
From Stdlib Require Import PrimFloat.
From Stdlib Require Import Reals.
Import ListNotations.

(** ** JavaScript numbers with their special values *)

Module JsNum.

Inductive t : Type :=
| NaN : t
| PosInf : t
| NegInf : t
| Fin (q : Q) : t.

Definition Qltb (a b : Q) : bool := negb (Qle_bool b a).

Definition of_Z (z : Z) : t := Fin (inject_Z z).

(** [x - y] *)
Definition sub (x y : t) : t :=
  match x, y with
  | NaN, _ | _, NaN => NaN
  | PosInf, PosInf | NegInf, NegInf => NaN
  | PosInf, _ => PosInf
  | NegInf, _ => NegInf
  | Fin _, PosInf => NegInf
  | Fin _, NegInf => PosInf
  | Fin a, Fin b => Fin (a - b)
  end.

(** [Math.abs(x)] *)
Definition abs (x : t) : t :=
  match x with
  | NaN => NaN
  | PosInf | NegInf => PosInf
  | Fin a => Fin (Qabs a)
  end.

(** [x / c] for a finite, strictly positive constant [c] (the only divisors
    the store uses). *)
Definition div_pos (x : t) (c : Q) : t :=
  match x with
  | Fin a => Fin (a / c)
  | other => other
  end.

(** [x < y]: false as soon as one side is [NaN]. *)
Definition ltb (x y : t) : bool :=
  match x, y with
  | NaN, _ | _, NaN => false
  | _, NegInf => false
  | PosInf, _ => false
  | NegInf, _ => true
  | Fin _, PosInf => true
  | Fin a, Fin b => Qltb a b
  end.

(** [Math.max(x, y)]: [NaN] as soon as one argument is. *)
Definition max (x y : t) : t :=
  match x, y with
  | NaN, _ | _, NaN => NaN
  | PosInf, _ | _, PosInf => PosInf
  | NegInf, z | z, NegInf => z
  | Fin a, Fin b => Fin (Qmax a b)
  end.

(** [Math.round(x)]: the nearest integer, ties towards plus infinity. *)
Definition round (x : t) : t :=
  match x with
  | Fin a => of_Z (Qfloor (a + (1 # 2)))
  | other => other
  end.

(** Truthiness of an optional number: [undefined], [NaN] and zero are
    falsy. *)
Definition truthy (x : option t) : bool :=
  match x with
  | None => false
  | Some NaN => false
  | Some (Fin a) => negb (Qeq_bool a 0)
  | Some _ => true
  end.

(** [x || d] *)
Definition or_else (x : option t) (d : t) : t :=
  match x with
  | Some v => if truthy x then v else d
  | None => d
  end.

(** The value is a number (not [NaN]) and is at least zero. *)
Definition nonneg (x : t) : Prop :=
  match x with
  | Fin a => (0 <= a)%Q
  | PosInf => True
  | NaN | NegInf => False
  end.

(** The value is finite and equal, as a rational, to [q]. *)
Definition is_fin (x : t) (q : Q) : Prop :=
  match x with
  | Fin a => (a == q)%Q
  | _ => False
  end.

End JsNum.

(** ** String helpers of the JavaScript runtime *)

Module JsText.

Open Scope string_scope.

(** [n.toString()] for an integer [n]. *)
Definition toString (n : Z) : string := NilZero.string_of_int (Z.to_int n).

Fixpoint repeat_char (c : ascii) (n : nat) : string :=
  match n with
  | O => EmptyString
  | S k => String c (repeat_char c k)
  end.

(** [s.padStart(n, c)] for a one-character filler. *)
Definition padStart (n : nat) (c : ascii) (s : string) : string :=
  repeat_char c (n - String.length s) ++ s.

(** [s.includes(sub)] *)
Definition includes (sub s : string) : bool :=
  match String.index 0 sub s with
  | Some _ => true
  | None => false
  end.

Example toString_neg : toString (-5) = "-5".
Proof. reflexivity. Qed.

Example padStart_short : padStart 2 "0" "7" = "07".
Proof. reflexivity. Qed.

Example padStart_long : padStart 2 "0" "123" = "123".
Proof. reflexivity. Qed.

Example includes_fetch : includes "fetch" "Failed to fetch" = true.
Proof. reflexivity. Qed.

Example includes_not : includes "fetch" "Load failed" = false.
Proof. reflexivity. Qed.

End JsText.

(** ** Mission state store (MissionContext) *)

Module MissionStore.

Open Scope string_scope.
Open Scope Z_scope.

Inductive PropulsionType := chemical | ion | nuclear.
Inductive PayloadType := camera | spectrometer | probe.
Inductive TrajectoryType := hohmann | bi_elliptic | gravity_assist.

Record MissionConfig := mkMissionConfig {
  launchWindow : string;
  propulsionType : PropulsionType;
  payload : list PayloadType;
  trajectoryType : option TrajectoryType;
  fuelCapacity : option Q;
  missionDuration : option Q
}.

Inductive Phase :=
| PLANNING | LAUNCH | CRUISE | APPROACH | INTERCEPT | COMPLETE | FAILED.

Record MissionStatus := mkMissionStatus {
  phase : Phase;
  timeToIntercept : option string;
  distanceToTarget : option JsNum.t;
  velocity : option JsNum.t;
  fuelRemaining : option JsNum.t;
  successProbability : option JsNum.t;
  missionElapsed : option string
}.

Record SimulationState := mkSimulationState {
  isRunning : bool;
  currentTime : Z;
  timeAcceleration : Q;
  elapsedTime : Z
}.

Definition Triple : Type := Q * Q * Q.

Record MissionData := mkMissionData {
  md_currentTime : Z;
  atlasPosition : Triple;
  earthPosition : Triple
}.

Record MissionContextState := mkState {
  missionConfig : MissionConfig;
  missionStatus : option MissionStatus;
  simulationState : SimulationState;
  interceptorTrajectory : option (list Triple);
  missionData : option MissionData
}.

Inductive MissionAction :=
| SET_MISSION_CONFIG (p : MissionConfig)
| START_SIMULATION
| PAUSE_SIMULATION
| RESET_SIMULATION
| UPDATE_MISSION_STATUS (p : MissionStatus)
| UPDATE_SIMULATION_TIME (p : Z)
| SET_INTERCEPTOR_TRAJECTORY (p : list Triple)
| UPDATE_MISSION_DATA (p : option MissionData).

(** What one run of the reducer reads from its environment: the two calls of
    [Date.now()] and the three calls of [Math.random()] of the start
    branch (the reset branch reads the clock once, through [now1]). *)
Record Env := mkEnv {
  now1 : Z;
  now2 : Z;
  rnd1 : Q;
  rnd2 : Q;
  rnd3 : Q
}.

(** [formatTime]: [Math.floor] of a quotient is [Z.div], the remainder
    operator [%] truncates and is [Z.rem]. *)
Definition formatTime (seconds : Z) : string :=
  let hours := seconds / 3600 in
  let minutes := (Z.rem seconds 3600) / 60 in
  let secs := Z.rem seconds 60 in
  JsText.padStart 2 "0" (JsText.toString hours) ++ ":" ++
  JsText.padStart 2 "0" (JsText.toString minutes) ++ ":" ++
  JsText.padStart 2 "0" (JsText.toString secs).

Section Reducer.

(** [new Date(s).getTime()]: the time stamp, or [None] for an invalid date
    (whose time is [NaN]). *)
Variable Date_getTime : string -> option Z.

Definition launchTimeOf (cfg : MissionConfig) : JsNum.t :=
  match Date_getTime (launchWindow cfg) with
  | Some ms => JsNum.of_Z ms
  | None => JsNum.NaN
  end.

(** The score computed by the start branch, before [Math.round]. *)
Definition startSuccessRate (env : Env) (cfg : MissionConfig) : Z :=
  let launchTime := launchTimeOf cfg in
  let currentTime := JsNum.of_Z (now1 env) in
  let timeDiff :=
    JsNum.div_pos (JsNum.abs (JsNum.sub launchTime currentTime))
                  (inject_Z (1000 * 60 * 60 * 24)) in
  let successRate := 75 in
  let successRate :=
    match propulsionType cfg with
    | nuclear => successRate + 15
    | ion => successRate + 10
    | chemical => successRate + 5
    end in
  let successRate :=
    if JsNum.ltb timeDiff (JsNum.of_Z 1) then successRate + 10
    else if JsNum.ltb (JsNum.of_Z 30) timeDiff then successRate - 15
    else successRate in
  let payloadComplexity := Z.of_nat (List.length (payload cfg)) in
  Z.max 60 (Z.min 95 (successRate - payloadComplexity * 2)).

Definition missionReducer (env : Env) (state : MissionContextState)
    (action : MissionAction) : MissionContextState :=
  match action with
  | SET_MISSION_CONFIG p =>
      mkState p (missionStatus state) (simulationState state)
              (interceptorTrajectory state) (missionData state)
  | START_SIMULATION =>
      let successRate := startSuccessRate env (missionConfig state) in
      let timeToIntercept :=
        Qfloor (rnd1 env * 3600 + 1800)%Q in
      let distance :=
        Qfloor (rnd2 env * 50000000 + 100000000)%Q in
      let velocity :=
        Qfloor (rnd3 env * 5000 + 15000)%Q in
      mkState (missionConfig state)
              (Some (mkMissionStatus
                       LAUNCH
                       (Some (formatTime timeToIntercept))
                       (Some (JsNum.of_Z distance))
                       (Some (JsNum.of_Z velocity))
                       (Some (JsNum.of_Z 100))
                       (Some (JsNum.round (JsNum.of_Z successRate)))
                       (Some "00:00:00")))
              (mkSimulationState
                 true
                 (now2 env)
                 (timeAcceleration (simulationState state))
                 0)
              (interceptorTrajectory state) (missionData state)
  | PAUSE_SIMULATION =>
      mkState (missionConfig state) (missionStatus state)
              (mkSimulationState
                 false
                 (currentTime (simulationState state))
                 (timeAcceleration (simulationState state))
                 (elapsedTime (simulationState state)))
              (interceptorTrajectory state) (missionData state)
  | RESET_SIMULATION =>
      mkState (missionConfig state) None
              (mkSimulationState
                 false
                 (now1 env)
                 (timeAcceleration (simulationState state))
                 0)
              (interceptorTrajectory state) (missionData state)
  | UPDATE_MISSION_STATUS p =>
      mkState (missionConfig state) (Some p) (simulationState state)
              (interceptorTrajectory state) (missionData state)
  | UPDATE_SIMULATION_TIME p =>
      mkState (missionConfig state) (missionStatus state)
              (mkSimulationState
                 (isRunning (simulationState state))
                 p
                 (timeAcceleration (simulationState state))
                 (elapsedTime (simulationState state) + 1))
              (interceptorTrajectory state) (missionData state)
  | SET_INTERCEPTOR_TRAJECTORY p =>
      mkState (missionConfig state) (missionStatus state)
              (simulationState state) (Some p) (missionData state)
  | UPDATE_MISSION_DATA p =>
      mkState (missionConfig state) (missionStatus state)
              (simulationState state) (interceptorTrajectory state) p
  end.

(** What one firing of the one-second interval reads: the clock and the
    two calls of [Math.random()]. *)
Record TickEnv := mkTickEnv {
  tick_now : Z;
  tick_rnd1 : Q;
  tick_rnd2 : Q
}.

(** The status built by the interval callback from the status it closed
    over. *)
Definition updatedStatus (te : TickEnv) (state : MissionContextState)
    (st : MissionStatus) : MissionStatus :=
  let elapsed := tick_now te - currentTime (simulationState state) in
  let elapsedSeconds := elapsed / 1000 in
  mkMissionStatus
    (phase st)
    (timeToIntercept st)
    (Some (JsNum.max (JsNum.of_Z 0)
             (JsNum.sub (JsNum.or_else (distanceToTarget st) (JsNum.of_Z 0))
                        (JsNum.Fin (tick_rnd2 te * 1000000)%Q))))
    (Some (JsNum.max (JsNum.of_Z 0)
             (JsNum.sub (JsNum.or_else (velocity st) (JsNum.of_Z 0))
                        (JsNum.Fin (tick_rnd1 te * 100)%Q))))
    (Some (JsNum.max (JsNum.of_Z 0)
             (JsNum.sub (JsNum.or_else (fuelRemaining st) (JsNum.of_Z 0))
                        (JsNum.Fin 0.1%Q))))
    (successProbability st)
    (Some (formatTime elapsedSeconds)).

(** The interval callback: with a status present it dispatches
    [UPDATE_MISSION_STATUS]; otherwise it does nothing. *)
Definition intervalCallback (te : TickEnv) (state : MissionContextState)
    : option MissionAction :=
  match missionStatus state with
  | Some st => Some (UPDATE_MISSION_STATUS (updatedStatus te state st))
  | None => None
  end.

(** One firing of the simulation loop: the effect only installs the
    interval while the simulation runs. *)
Definition simulationTick (env : Env) (te : TickEnv)
    (state : MissionContextState) : MissionContextState :=
  if isRunning (simulationState state) then
    match intervalCallback te state with
    | Some a => missionReducer env state a
    | None => state
    end
  else state.

End Reducer.

(** *** The start score as the specification words it

    Base 75, a bonus by propulsion kind, a timing term from the distance
    between the clock and the launch window, two points off per payload item,
    clamped to the band 60..95.  The distance is compared in whole
    milliseconds; an unparsable launch window gives no timing term. *)

Definition spec_propulsionBonus (p : PropulsionType) : Z :=
  match p with
  | nuclear => 15
  | ion => 10
  | chemical => 5
  end.

Definition msPerDay : Z := 86400000.

Definition spec_timingTerm (launch : option Z) (now : Z) : Z :=
  match launch with
  | None => 0
  | Some l =>
      if Z.abs (l - now) <? msPerDay then 10
      else if 30 * msPerDay <? Z.abs (l - now) then -15
      else 0
  end.

Definition spec_startScore (launch : option Z) (now : Z)
    (cfg : MissionConfig) : Z :=
  Z.max 60
    (Z.min 95
       (75 + spec_propulsionBonus (propulsionType cfg)
        + spec_timingTerm launch now
        - 2 * Z.of_nat (List.length (payload cfg)))).

(** *** Examples *)

Example formatTime_3725 : formatTime 3725 = "01:02:05".
Proof. reflexivity. Qed.

Example formatTime_0 : formatTime 0 = "00:00:00".
Proof. reflexivity. Qed.

Definition defaultConfig : MissionConfig :=
  mkMissionConfig "2025-10-01T12:00" chemical [camera] (Some hohmann)
                  (Some 10000%Q) (Some 365%Q).

Definition initialState : MissionContextState :=
  mkState defaultConfig None (mkSimulationState false 0 1%Q 0) None None.

(** A clock for the examples: every launch window parses to day 1. *)
Definition dayOne (_ : string) : option Z := Some msPerDay.

Definition env0 : Env := mkEnv 0 5 (1 # 2) (1 # 4) (3 # 4).

Example start_score_default :
  startSuccessRate dayOne env0 defaultConfig = 78.
Proof. reflexivity. Qed.

Example start_score_imminent :
  startSuccessRate dayOne (mkEnv 1 1 0 0 0) defaultConfig = 88.
Proof. reflexivity. Qed.

(** *** Arithmetic of the timing test *)

Lemma Qabs_inject_Z_sub (l n : Z) :
  (Qabs (inject_Z l - inject_Z n) == inject_Z (Z.abs (l - n)))%Q.
Proof.
  unfold Qminus. rewrite <- inject_Z_opp, <- inject_Z_plus.
  unfold Qabs, inject_Z. simpl. reflexivity.
Qed.

Lemma Qltb_true_iff (a b : Q) : JsNum.Qltb a b = true <-> (a < b)%Q.
Proof.
  unfold JsNum.Qltb. rewrite negb_true_iff.
  split; intro H.
  - apply Qnot_le_lt. intro Hle. apply Qle_bool_iff in Hle. congruence.
  - destruct (Qle_bool b a) eqn:E; [|reflexivity].
    apply Qle_bool_iff in E. exfalso. apply (Qlt_not_le _ _ H E).
Qed.

Lemma Qltb_Zltb (a b : Z) :
  JsNum.Qltb (inject_Z a) (inject_Z b) = (a <? b).
Proof.
  destruct (a <? b) eqn:E.
  - apply Qltb_true_iff. rewrite <- Zlt_Qlt. now apply Z.ltb_lt.
  - apply not_true_is_false. intro H. apply Qltb_true_iff in H.
    rewrite <- Zlt_Qlt in H. apply Z.ltb_ge in E. lia.
Qed.

Lemma Qdiv_lt_iff (a b c : Q) :
  (0 < c)%Q -> ((a / c < b)%Q <-> (a < b * c)%Q).
Proof.
  intro Hc. split; intro H.
  - setoid_replace a with (a / c * c)%Q
      by (field; intro Hz; rewrite Hz in Hc; discriminate).
    apply Qmult_lt_compat_r; assumption.
  - apply Qlt_shift_div_r; assumption.
Qed.

Lemma Qlt_div_iff (a b c : Q) :
  (0 < c)%Q -> ((b < a / c)%Q <-> (b * c < a)%Q).
Proof.
  intro Hc. split; intro H.
  - setoid_replace a with (a / c * c)%Q
      by (field; intro Hz; rewrite Hz in Hc; discriminate).
    apply Qmult_lt_compat_r; assumption.
  - apply Qlt_shift_div_l; assumption.
Qed.

Lemma bool_eq_iff (b1 b2 : bool) : (b1 = true <-> b2 = true) -> b1 = b2.
Proof. destruct b1, b2; intuition congruence. Qed.

Lemma days_lt_one (l n : Z) :
  JsNum.Qltb (Qabs (inject_Z l - inject_Z n) / inject_Z (1000 * 60 * 60 * 24))
             (inject_Z 1) = (Z.abs (l - n) <? msPerDay).
Proof.
  change (1000 * 60 * 60 * 24) with msPerDay.
  apply bool_eq_iff.
  rewrite Qltb_true_iff, Z.ltb_lt, Qdiv_lt_iff by reflexivity.
  rewrite Qabs_inject_Z_sub, <- inject_Z_mult, <- Zlt_Qlt. lia.
Qed.

Lemma days_gt_thirty (l n : Z) :
  JsNum.Qltb (inject_Z 30)
             (Qabs (inject_Z l - inject_Z n) / inject_Z (1000 * 60 * 60 * 24))
  = (30 * msPerDay <? Z.abs (l - n)).
Proof.
  change (1000 * 60 * 60 * 24) with msPerDay.
  apply bool_eq_iff.
  rewrite Qltb_true_iff, Z.ltb_lt, Qlt_div_iff by reflexivity.
  rewrite Qabs_inject_Z_sub, <- inject_Z_mult, <- Zlt_Qlt. lia.
Qed.

Lemma round_of_Z (z : Z) : JsNum.round (JsNum.of_Z z) = JsNum.of_Z z.
Proof.
  unfold JsNum.round, JsNum.of_Z. f_equal. f_equal.
  unfold Qfloor, inject_Z, Qplus. simpl.
  replace (z * 2 + 1) with (1 + z * 2) by ring.
  rewrite Z.div_add by discriminate. reflexivity.
Qed.

(** The score of the start branch is the score the specification words. *)
Lemma startSuccessRate_spec (D : string -> option Z) (env : Env)
    (cfg : MissionConfig) :
  startSuccessRate D env cfg
  = spec_startScore (D (launchWindow cfg)) (now1 env) cfg.
Proof.
  unfold startSuccessRate, spec_startScore, launchTimeOf, spec_timingTerm.
  destruct (D (launchWindow cfg)) as [l|]; cbn [JsNum.of_Z JsNum.sub
    JsNum.abs JsNum.div_pos JsNum.ltb].
  - rewrite days_lt_one, days_gt_thirty.
    destruct (Z.abs (l - now1 env) <? msPerDay);
      [|destruct (30 * msPerDay <? Z.abs (l - now1 env))];
      destruct (propulsionType cfg); cbn [spec_propulsionBonus]; lia.
  - destruct (propulsionType cfg); cbn [spec_propulsionBonus]; lia.
Qed.

Lemma spec_startScore_band (launch : option Z) (now : Z)
    (cfg : MissionConfig) :
  60 <= spec_startScore launch now cfg <= 95.
Proof. unfold spec_startScore. lia. Qed.

(** C1.  From any prior state and for every configuration, [Start] yields a
    running state with the elapsed counter at zero, and a status in phase
    LAUNCH with fuel 100, mission-elapsed ["00:00:00"] and a success
    probability equal to 75 plus the propulsion bonus (nuclear 15, ion 10,
    chemical 5), plus 10 when the launch window is less than a day away or
    minus 15 when it is more than thirty days away, minus 2 per payload item,
    clamped to 60..95. *)
Theorem start_simulation_status :
  forall (D : string -> option Z) (env : Env) (state : MissionContextState),
    let s' := missionReducer D env state START_SIMULATION in
    isRunning (simulationState s') = true
    /\ elapsedTime (simulationState s') = 0
    /\ exists st,
        missionStatus s' = Some st
        /\ phase st = LAUNCH
        /\ fuelRemaining st = Some (JsNum.of_Z 100)
        /\ missionElapsed st = Some "00:00:00"
        /\ successProbability st
           = Some (JsNum.of_Z
                     (spec_startScore
                        (D (launchWindow (missionConfig state)))
                        (now1 env) (missionConfig state))).
Proof.
  intros D env state s'. subst s'. cbn [missionReducer simulationState
    isRunning elapsedTime missionStatus].
  split; [reflexivity|]. split; [reflexivity|].
  eexists. split; [reflexivity|].
  cbn [phase fuelRemaining missionElapsed successProbability].
  repeat split.
  rewrite round_of_Z, startSuccessRate_spec. reflexivity.
Qed.

(** C6.  [Pause] clears the running flag and leaves every other field as it
    was: elapsed time, current time, time acceleration, the configuration,
    the status, the interceptor trajectory and the mission data. *)
Theorem pause_frame :
  forall (D : string -> option Z) (env : Env) (state : MissionContextState),
    let s' := missionReducer D env state PAUSE_SIMULATION in
    isRunning (simulationState s') = false
    /\ elapsedTime (simulationState s') = elapsedTime (simulationState state)
    /\ currentTime (simulationState s') = currentTime (simulationState state)
    /\ timeAcceleration (simulationState s')
       = timeAcceleration (simulationState state)
    /\ missionConfig s' = missionConfig state
    /\ missionStatus s' = missionStatus state
    /\ interceptorTrajectory s' = interceptorTrajectory state
    /\ missionData s' = missionData state.
Proof. intros D env state s'. subst s'. cbn. repeat split. Qed.

(** *** The telemetry tick keeps its three counters at or above zero *)

Lemma floored_decrement_nonneg (x : option JsNum.t) (d : Q) :
  JsNum.nonneg
    (JsNum.max (JsNum.of_Z 0)
       (JsNum.sub (JsNum.or_else x (JsNum.of_Z 0)) (JsNum.Fin d))).
Proof.
  destruct x as [[| | |a]|]; cbn.
  - apply Q.le_max_l.
  - exact I.
  - apply Qle_refl.
  - destruct (Qeq_bool a 0); cbn; apply Q.le_max_l.
  - apply Q.le_max_l.
Qed.

(** C10.  While the simulation runs with a status present, one firing of the
    one-second loop stores the updated status, and in it velocity, distance to
    target and remaining fuel are numbers (never [NaN], never [undefined])
    that are at least zero, whatever the prior status held. *)
Theorem tick_keeps_telemetry_nonnegative :
  forall (D : string -> option Z) (env : Env) (te : TickEnv)
         (state : MissionContextState) (st : MissionStatus),
    isRunning (simulationState state) = true ->
    missionStatus state = Some st ->
    exists st' v d f,
      missionStatus (simulationTick D env te state) = Some st'
      /\ st' = updatedStatus te state st
      /\ velocity st' = Some v /\ JsNum.nonneg v
      /\ distanceToTarget st' = Some d /\ JsNum.nonneg d
      /\ fuelRemaining st' = Some f /\ JsNum.nonneg f.
Proof.
  intros D env te state st Hrun Hst.
  unfold simulationTick, intervalCallback. rewrite Hrun, Hst.
  cbn [missionReducer missionStatus].
  eexists. eexists. eexists. eexists.
  split; [reflexivity|]. split; [reflexivity|].
  cbn [updatedStatus velocity distanceToTarget fuelRemaining].
  split; [reflexivity|]. split; [apply floored_decrement_nonneg|].
  split; [reflexivity|]. split; [apply floored_decrement_nonneg|].
  split; [reflexivity|]. apply floored_decrement_nonneg.
Qed.

Definition cruisingStatus : MissionStatus :=
  mkMissionStatus CRUISE (Some "00:45:00")
    (Some (JsNum.Fin 500000%Q)) (Some (JsNum.Fin 40%Q))
    (Some (JsNum.Fin 0.05%Q)) (Some (JsNum.of_Z 80)) (Some "00:00:10").

Definition cruisingState : MissionContextState :=
  mkState defaultConfig (Some cruisingStatus)
          (mkSimulationState true 0 1%Q 10) None None.

Definition tick0 : TickEnv := mkTickEnv 11000 (9 # 10) (9 # 10).

Lemma tick_keeps_telemetry_nonnegative_witness :
  exists st' v d f,
    missionStatus (simulationTick dayOne env0 tick0 cruisingState) = Some st'
    /\ st' = updatedStatus tick0 cruisingState cruisingStatus
    /\ velocity st' = Some v /\ JsNum.nonneg v
    /\ distanceToTarget st' = Some d /\ JsNum.nonneg d
    /\ fuelRemaining st' = Some f /\ JsNum.nonneg f.
Proof.
  apply (tick_keeps_telemetry_nonnegative dayOne env0 tick0 cruisingState
           cruisingStatus); reflexivity.
Defined.

(** A velocity of 40 less a decrement of 90 is floored at zero. *)
Example tick_floors_at_zero :
  let st' := updatedStatus tick0 cruisingState cruisingStatus in
  match velocity st' with
  | Some v => JsNum.is_fin v 0
  | None => False
  end
  /\ missionElapsed st' = Some "00:00:11".
Proof. split; reflexivity. Qed.

End MissionStore.

(** ** Data access layer (services/api) *)

Module ApiClient.

Open Scope string_scope.
Open Scope Z_scope.

(** [RETRY_CONFIG] *)
Definition maxRetries : nat := 3.
Definition baseDelay : Z := 1000.
Definition maxDelay : Z := 10000.

(** An instance of [Error]: whether it is a [TypeError], its message, and its
    numeric [status] property when it has one. *)
Record ErrorObject := mkError {
  isTypeError : bool;
  message : string;
  status : option Z
}.

(** What a [catch] clause can receive: an [Error] instance, or some other
    object (of which only a [status] property matters). *)
Inductive Thrown :=
| ThrownError (e : ErrorObject)
| ThrownValue (st : option Z).

Definition statusOf (error : Thrown) : option Z :=
  match error with
  | ThrownError e => status e
  | ThrownValue st => st
  end.

Definition getRetryDelay (attempt : nat) : Z :=
  let delay := baseDelay * 2 ^ Z.of_nat attempt in
  Z.min delay maxDelay.

Definition isRetryableError (error : Thrown) : bool :=
  if match error with
     | ThrownError e => isTypeError e && JsText.includes "fetch" (message e)
     | ThrownValue _ => false
     end
  then true
  else if match statusOf error with
          | Some s => (500 <=? s) && (s <? 600)
          | None => false
          end
  then true
  else if match statusOf error with
          | Some s => s =? 429
          | None => false
          end
  then true
  else false.

(** How a block of code ends: normally with a value, or abruptly with a
    thrown value ([None] is a thrown [undefined]). *)
Inductive Completion (A : Type) :=
| Normal (a : A)
| Abrupt (e : option Thrown).

Arguments Normal {A} a.
Arguments Abrupt {A} e.

Definition bind {A B} (c : Completion A) (k : A -> Completion B)
    : Completion B :=
  match c with
  | Normal a => k a
  | Abrupt e => Abrupt e
  end.

Definition try_catch {A} (body : Completion A)
    (handler : option Thrown -> Completion A) : Completion A :=
  match body with
  | Normal a => Normal a
  | Abrupt e => handler e
  end.

(** What the client does to the outside, in order. *)
Inductive Event :=
| Fetch (attempt : nat)
| Sleep (ms : Z).

Record ApiResponse (T : Type) := mkResponse {
  success : bool;
  data : option T;
  error : option string;
  timestamp : Z
}.

Arguments mkResponse {T}.
Arguments success {T}.
Arguments data {T}.
Arguments error {T}.
Arguments timestamp {T}.

Section Request.

Variable T : Type.

(** The body of a response read as JSON: a value, or a parse failure. *)
Inductive Body :=
| BodyJson (d : T)
| BodyInvalid (e : Thrown).

(** The network's answer to one [fetch]: the promise rejects, or resolves to
    a response with a status, a status text and a body. *)
Inductive FetchOutcome :=
| Rejects (e : Thrown)
| Responds (st : Z) (statusText : string) (body : Body).

(** [response.ok] *)
Definition response_ok (st : Z) : bool := (200 <=? st) && (st <=? 299).

(** The [try] block of one attempt either leaves the function with
    [return response.json()] (a promise that is not awaited inside the block,
    so its rejection is not caught there) or lands in the [catch] clause. *)
Inductive TryResult :=
| Returns (c : Completion T)
| Caught (e : Thrown).

Definition tryBlock (o : FetchOutcome) : TryResult :=
  match o with
  | Rejects e => Caught e
  | Responds st statusText body =>
      if negb (response_ok st) then
        Caught (ThrownError
                  (mkError false
                     ("API request failed: " ++ JsText.toString st ++ " "
                      ++ statusText)
                     (Some st)))
      else
        match body with
        | BodyJson d => Returns (Normal d)
        | BodyInvalid e => Returns (Abrupt (Some e))
        end
  end.

(** The [for] loop of [apiRequest], from iteration [attempt] on, with
    [remaining] iterations left before [attempt <= maxRetries] fails.
    [net k] is the network's answer to the fetch of attempt [k]. *)
Fixpoint attemptLoop (net : nat -> FetchOutcome) (remaining attempt : nat)
    (lastError : option Thrown) : list Event * Completion T :=
  match remaining with
  | O => ([], Abrupt lastError)
  | S more =>
      match tryBlock (net attempt) with
      | Returns c => ([Fetch attempt], c)
      | Caught e =>
          if (attempt =? maxRetries)%nat || negb (isRetryableError e)
          then ([Fetch attempt], Abrupt (Some e))
          else
            let '(tr, c) := attemptLoop net more (S attempt) (Some e) in
            (Fetch attempt :: Sleep (getRetryDelay attempt) :: tr, c)
      end
  end.

Definition apiRequest (net : nat -> FetchOutcome)
    : list Event * Completion T :=
  attemptLoop net (S maxRetries) 0%nat None.

(** [ApiClient.request]; [now] is the value of [Date.now()]. *)
Definition request (net : nat -> FetchOutcome) (now : Z)
    : list Event * Completion (ApiResponse T) :=
  let '(tr, c) := apiRequest net in
  (tr,
   try_catch
     (bind c (fun d => Normal (mkResponse true (Some d) None now)))
     (fun err =>
        Normal (mkResponse false None
                  (Some match err with
                        | Some (ThrownError e) => message e
                        | _ => "Unknown error"
                        end)
                  now))).

(** *** The retry policy as the specification words it *)

(** A failure the client recognises as a network failure: a [TypeError]
    whose message mentions [fetch]. *)
Definition spec_networkFailure (err : Thrown) : Prop :=
  exists e, err = ThrownError e /\ isTypeError e = true
            /\ JsText.includes "fetch" (message e) = true.

Definition spec_retryable (err : Thrown) : Prop :=
  spec_networkFailure err
  \/ (exists s, statusOf err = Some s /\ 500 <= s <= 599)
  \/ statusOf err = Some 429.

(** Attempt [k] failed with a failure of the retryable kinds. *)
Definition retryableFailure (net : nat -> FetchOutcome) (k : nat) : Prop :=
  exists err, tryBlock (net k) = Caught err /\ spec_retryable err.

Definition spec_delay (attempt : nat) : Z :=
  Z.min (1000 * 2 ^ Z.of_nat attempt) 10000.

(** The events of a request that was retried [n] times. *)
Definition spec_trace (n : nat) : list Event :=
  (flat_map (fun k => [Fetch k; Sleep (spec_delay k)]) (seq 0 n)
   ++ [Fetch n])%list.

End Request.

Arguments BodyJson {T} d.
Arguments BodyInvalid {T} e.
Arguments Rejects {T} e.
Arguments Responds {T} st statusText body.

Section RetryPolicy.

Variable T : Type.

Example delays_of_the_three_retries :
  map getRetryDelay [0; 1; 2; 3; 4]%nat = [1000; 2000; 4000; 8000; 10000].
Proof. reflexivity. Qed.

Definition serverError : Thrown :=
  ThrownError (mkError false "API request failed: 503 Service Unavailable"
                       (Some 503)).

Example retryable_examples :
  isRetryableError (ThrownError (mkError true "Failed to fetch" None)) = true
  /\ isRetryableError serverError = true
  /\ isRetryableError (ThrownError (mkError false "x" (Some 429))) = true
  /\ isRetryableError (ThrownError (mkError false "x" (Some 404))) = false
  /\ isRetryableError (ThrownError (mkError true "Load failed" None)) = false.
Proof. repeat split. Qed.

Lemma isRetryableError_spec (err : Thrown) :
  isRetryableError err = true <-> spec_retryable err.
Proof.
  unfold isRetryableError, spec_retryable, spec_networkFailure.
  split.
  - intro H.
    destruct err as [e|st]; cbn [statusOf] in *.
    + destruct (isTypeError e && JsText.includes "fetch" (message e)) eqn:Hn.
      * apply andb_true_iff in Hn. left. exists e. tauto.
      * right. destruct (status e) as [s|]; [|discriminate].
        destruct ((500 <=? s) && (s <? 600)) eqn:H5.
        -- left. exists s. apply andb_true_iff in H5.
           rewrite Z.leb_le, Z.ltb_lt in H5. split; [reflexivity|lia].
        -- right. destruct (s =? 429) eqn:H4; [|discriminate].
           apply Z.eqb_eq in H4. now subst.
    + right. destruct st as [s|]; [|discriminate].
      destruct ((500 <=? s) && (s <? 600)) eqn:H5.
      * left. exists s. apply andb_true_iff in H5.
        rewrite Z.leb_le, Z.ltb_lt in H5. split; [reflexivity|lia].
      * right. destruct (s =? 429) eqn:H4; [|discriminate].
        apply Z.eqb_eq in H4. now subst.
  - intros [[e [-> [Ht Hm]]] | [[s [Hs Hr]] | Hs]].
    + rewrite Ht, Hm. reflexivity.
    + rewrite Hs.
      replace ((500 <=? s) && (s <? 600)) with true.
      * now destruct (match err with
                      | ThrownError e =>
                          isTypeError e
                          && JsText.includes "fetch" (message e)
                      | ThrownValue _ => false
                      end).
      * symmetry. apply andb_true_iff.
        rewrite Z.leb_le, Z.ltb_lt. lia.
    + rewrite Hs. cbn.
      now destruct (match err with
                    | ThrownError e =>
                        isTypeError e && JsText.includes "fetch" (message e)
                    | ThrownValue _ => false
                    end).
Qed.

(** A response outside 200..299 is caught as an error that carries the
    response's status, and is not a [TypeError]. *)
Lemma http_failure_caught (st : Z) (txt : string) (b : Body T) :
  response_ok st = false ->
  exists e, tryBlock T (Responds st txt b) = Caught T (ThrownError e)
            /\ status e = Some st /\ isTypeError e = false.
Proof.
  intro H. cbn [tryBlock]. rewrite H. cbn. eexists. repeat split.
Qed.

(** How attempt [n], the last one made, decides the result. *)
Definition finalCompletion (r : TryResult T) : Completion T :=
  match r with
  | Returns _ c => c
  | Caught _ e => Abrupt (Some e)
  end.

Definition retryStep (k : nat) : list Event :=
  [Fetch k; Sleep (spec_delay k)].

Lemma attemptLoop_shape (net : nat -> FetchOutcome T) :
  forall (remaining attempt : nat) (last : option Thrown),
    (remaining + attempt = S maxRetries)%nat ->
    (0 < remaining)%nat ->
    exists m,
      (attempt + m <= maxRetries)%nat
      /\ fst (attemptLoop T net remaining attempt last)
         = (flat_map retryStep (seq attempt m) ++ [Fetch (attempt + m)])%list
      /\ snd (attemptLoop T net remaining attempt last)
         = finalCompletion (tryBlock T (net (attempt + m)%nat))
      /\ (forall k, (attempt <= k < attempt + m)%nat ->
                    retryableFailure T net k)
      /\ ((attempt + m < maxRetries)%nat ->
          ~ retryableFailure T net (attempt + m)).
Proof.
  induction remaining as [|more IH]; intros attempt last Hsum Hpos;
    [lia|].
  cbn [attemptLoop].
  destruct (tryBlock T (net attempt)) as [c|e] eqn:Htry.
  - exists 0%nat. rewrite Nat.add_0_r, Htry. cbn.
    repeat split; try lia.
    intros _ [err [Hc _]]. congruence.
  - destruct ((attempt =? maxRetries)%nat || negb (isRetryableError e))
      eqn:Hstop.
    + exists 0%nat. rewrite Nat.add_0_r, Htry. cbn.
      repeat split; try lia.
      intros Hlt [err [Hc Hr]].
      assert (err = e) by congruence. subst err.
      apply isRetryableError_spec in Hr.
      apply orb_true_iff in Hstop. destruct Hstop as [Heq|Hneg].
      * apply Nat.eqb_eq in Heq. lia.
      * rewrite Hr in Hneg. discriminate.
    + apply orb_false_iff in Hstop. destruct Hstop as [Hne Hre].
      apply Nat.eqb_neq in Hne. apply negb_false_iff in Hre.
      assert (Hmore : (0 < more)%nat) by (unfold maxRetries in *; lia).
      destruct (IH (S attempt) (Some e) ltac:(lia) Hmore)
        as [m [Hle [Htr [Hres [Hall Hlast]]]]].
      destruct (attemptLoop T net more (S attempt) (Some e)) as [tr c].
      cbn [fst snd] in *.
      exists (S m).
      replace (attempt + S m)%nat with (S attempt + m)%nat by lia.
      split; [lia|]. split.
      { rewrite Htr. reflexivity. }
      split; [exact Hres|]. split; [|exact Hlast].
      intros k Hk.
      destruct (Nat.eq_dec k attempt) as [->|Hd].
      * exists e. split; [exact Htry|]. now apply isRetryableError_spec.
      * apply Hall. lia.
Qed.

(** C5.  Every request ends with an envelope, never with an exception.  It
    makes at most three retries; retry [k] follows a failure that is a
    network failure, an HTTP 5xx or HTTP 429, after a pause of
    [min (1000 * 2^k) 10000] ms; the attempts stop at the first success or
    at the first failure of any other kind; and a failed request gives
    [success = false] with an error message and no data. *)
Theorem request_retry_policy :
  forall (net : nat -> FetchOutcome T) (now : Z),
  exists (n : nat) (env : ApiResponse T),
    request T net now = (spec_trace n, Normal env)
    /\ (n <= 3)%nat
    /\ (forall k, (k < n)%nat -> retryableFailure T net k)
    /\ ((n < 3)%nat -> ~ retryableFailure T net n)
    /\ ((success env = true
         /\ exists d, data env = Some d
                      /\ tryBlock T (net n) = Returns T (Normal d))
        \/ (success env = false /\ data env = None
            /\ exists msg, error env = Some msg)).
Proof.
  intros net now.
  destruct (attemptLoop_shape net (S maxRetries) 0 None)
    as [n [Hle [Htr [Hres [Hall Hlast]]]]]; [reflexivity|unfold maxRetries; lia|].
  unfold request, apiRequest.
  destruct (attemptLoop T net (S maxRetries) 0 None) as [tr c].
  cbn [fst snd Nat.add] in *.
  destruct c as [d|err].
  - exists n. eexists. split; [rewrite Htr; reflexivity|].
    split; [exact Hle|]. split; [intros k Hk; apply Hall; lia|].
    split; [exact Hlast|].
    left. split; [reflexivity|]. exists d. split; [reflexivity|].
    destruct (tryBlock T (net n)) as [c|e]; cbn in Hres;
      [now subst c|discriminate].
  - exists n. eexists. split; [rewrite Htr; reflexivity|].
    split; [exact Hle|]. split; [intros k Hk; apply Hall; lia|].
    split; [exact Hlast|].
    right. split; [reflexivity|]. split; [reflexivity|].
    eexists. reflexivity.
Qed.

End RetryPolicy.

(** A server that answers 503 twice and then 404. *)
Definition flakyThenMissing (k : nat) : FetchOutcome Z :=
  match k with
  | 0%nat | 1%nat => Responds 503 "Service Unavailable" (BodyJson 0)
  | _ => Responds 404 "Not Found" (BodyJson 0)
  end.

Example request_flaky_then_missing :
  request Z flakyThenMissing 7
  = ([Fetch 0; Sleep 1000; Fetch 1; Sleep 2000; Fetch 2],
     Normal (mkResponse false None
               (Some "API request failed: 404 Not Found") 7)).
Proof. reflexivity. Qed.

(** A server that is down for good: four fetches, three pauses. *)
Example request_server_down :
  request Z (fun _ => Responds 500 "Internal Server Error" (BodyJson 0)) 7
  = ([Fetch 0; Sleep 1000; Fetch 1; Sleep 2000; Fetch 2; Sleep 4000;
      Fetch 3],
     Normal (mkResponse false None
               (Some "API request failed: 500 Internal Server Error") 7)).
Proof. reflexivity. Qed.

Example request_ok :
  request Z (fun _ => Responds 200 "OK" (BodyJson 42)) 7
  = ([Fetch 0], Normal (mkResponse true (Some 42) None 7)).
Proof. reflexivity. Qed.

End ApiClient.

(** ** Mission success heuristic (utils/orbitalMechanics) *)

Module SuccessProbability.

Import MissionStore.

Open Scope Q_scope.

(** [calculateSuccessProbability] over exact rationals. *)
Definition calculateSuccessProbability
    (distance velocity fuelRemaining : Q) (propulsionType : PropulsionType)
    : Q :=
  let baseSuccess := 90 in
  let baseSuccess := baseSuccess - Qmin (distance / 1000000) 50 in
  let optimalVelocity :=
    match propulsionType with
    | chemical => 15
    | ion => 8
    | nuclear => 25
    end in
  let velocityDiff := Qabs (velocity - optimalVelocity) in
  let baseSuccess := baseSuccess - velocityDiff * 2 in
  let baseSuccess := baseSuccess * (fuelRemaining / 100) in
  Qmax (Qmin baseSuccess 95) 5.

(** *** The same function over binary64 floats

    Every operation below is the IEEE 754 operation the JavaScript engine
    performs, so a value computed here is the value the code returns. *)

(** [Math.min]: [NaN] if an argument is; of two zeros the negative one. *)
Definition Math_min (x y : float) : float :=
  if (is_nan x || is_nan y)%bool then nan
  else if (x <? y)%float then x
  else if (y <? x)%float then y
  else match classify x with
       | FloatClass.NZero => x
       | _ => y
       end.

(** [Math.max]: [NaN] if an argument is; of two zeros the positive one. *)
Definition Math_max (x y : float) : float :=
  if (is_nan x || is_nan y)%bool then nan
  else if (x <? y)%float then y
  else if (y <? x)%float then x
  else match classify x with
       | FloatClass.PZero => x
       | _ => y
       end.

Definition calculateSuccessProbability_f64
    (distance velocity fuelRemaining : float)
    (propulsionType : PropulsionType) : float :=
  (let baseSuccess := 90 in
   let baseSuccess := baseSuccess - Math_min (distance / 1000000) 50 in
   let optimalVelocity :=
     match propulsionType with
     | chemical => 15
     | ion => 8
     | nuclear => 25
     end in
   let velocityDiff := abs (velocity - optimalVelocity) in
   let baseSuccess := baseSuccess - velocityDiff * 2 in
   let baseSuccess := baseSuccess * (fuelRemaining / 100) in
   Math_max (Math_min baseSuccess 95) 5)%float.

(** *** Examples *)

Example probability_nominal :
  calculateSuccessProbability 20000000 15 100 chemical == 70.
Proof. reflexivity. Qed.

Example probability_nominal_f64 :
  calculateSuccessProbability_f64 20000000 15 100 chemical = 70%float.
Proof. reflexivity. Qed.

Example probability_floor :
  calculateSuccessProbability 20000000 15 0 chemical == 5.
Proof. reflexivity. Qed.

Example probability_cap :
  calculateSuccessProbability 0 15 200 chemical == 95.
Proof. reflexivity. Qed.

(** *** Range and monotonicity over exact rationals *)

Lemma clamp_range (x : Q) : 5 <= Qmax (Qmin x 95) 5 <= 95.
Proof.
  split.
  - apply Q.le_max_r.
  - apply Q.max_lub; [apply Q.le_min_r|discriminate].
Qed.

Lemma clamp_mono (x y : Q) :
  x <= y -> Qmax (Qmin x 95) 5 <= Qmax (Qmin y 95) 5.
Proof.
  intro H. apply Q.max_le_compat_r. apply Q.min_le_compat_r. exact H.
Qed.

Lemma clamp_nonpos (x : Q) : x <= 0 -> Qmax (Qmin x 95) 5 == 5.
Proof.
  intro H. apply Q.max_r.
  apply Qle_trans with x; [apply Q.le_min_l|].
  apply Qle_trans with 0; [exact H|discriminate].
Qed.

(** The score before the fuel factor. *)
Definition unscaled (distance velocity : Q) (p : PropulsionType) : Q :=
  90 - Qmin (distance / 1000000) 50
  - Qabs (velocity - match p with
                     | chemical => 15
                     | ion => 8
                     | nuclear => 25
                     end) * 2.

Lemma probability_unfold (d v f : Q) (p : PropulsionType) :
  calculateSuccessProbability d v f p
  = Qmax (Qmin (unscaled d v p * (f / 100)) 95) 5.
Proof. reflexivity. Qed.

Lemma unscaled_antitone (d d' v : Q) (p : PropulsionType) :
  d <= d' -> unscaled d' v p <= unscaled d v p.
Proof.
  intro H. unfold unscaled.
  assert (Hm : Qmin (d / 1000000) 50 <= Qmin (d' / 1000000) 50).
  { apply Q.min_le_compat_r. apply Qmult_le_compat_r; [exact H|discriminate]. }
  lra.
Qed.

Lemma probability_range (d v f : Q) (p : PropulsionType) :
  5 <= calculateSuccessProbability d v f p <= 95.
Proof. rewrite probability_unfold. apply clamp_range. Qed.

Lemma probability_antitone_distance (d d' v f : Q) (p : PropulsionType) :
  0 <= f -> d <= d' ->
  calculateSuccessProbability d' v f p <= calculateSuccessProbability d v f p.
Proof.
  intros Hf Hd. rewrite !probability_unfold. apply clamp_mono.
  apply Qmult_le_compat_r; [now apply unscaled_antitone|].
  apply Qle_shift_div_l; [reflexivity|]. lra.
Qed.

Lemma probability_monotone_fuel (d v f f' : Q) (p : PropulsionType) :
  0 <= f -> f <= f' ->
  calculateSuccessProbability d v f p <= calculateSuccessProbability d v f' p.
Proof.
  intros Hf Hff. rewrite !probability_unfold.
  destruct (Qlt_le_dec (unscaled d v p) 0) as [Hneg|Hpos].
  - rewrite (clamp_nonpos (unscaled d v p * (f / 100))).
    + apply Q.le_max_r.
    + assert (0 <= f / 100) by (apply Qle_shift_div_l; [reflexivity|lra]).
      nra.
  - apply clamp_mono.
    assert (f / 100 <= f' / 100)
      by (apply Qmult_le_compat_r; [exact Hff|discriminate]).
    nra.
Qed.

(** C3, as the code has it.  Over exact rationals the result lies in 5..95
    for every input, whatever its sign; and for a fuel level that is not
    negative it does not increase when the distance grows and does not
    decrease when the fuel level grows. *)
Theorem success_probability_range_and_monotone :
  forall (d v f : Q) (p : PropulsionType),
    5 <= calculateSuccessProbability d v f p <= 95
    /\ (forall d' : Q,
          0 <= f -> d <= d' ->
          calculateSuccessProbability d' v f p
          <= calculateSuccessProbability d v f p)
    /\ (forall f' : Q,
          0 <= f -> f <= f' ->
          calculateSuccessProbability d v f p
          <= calculateSuccessProbability d v f' p).
Proof.
  intros d v f p.
  split; [apply probability_range|].
  split.
  - intros d' Hf Hd. now apply probability_antitone_distance.
  - intros f' Hf Hff. now apply probability_monotone_fuel.
Qed.

(** The range at a negative fuel level, and the two orders at fuel 50. *)
Lemma success_probability_range_and_monotone_witness :
  5 <= calculateSuccessProbability 0 65 (-100) chemical <= 95
  /\ calculateSuccessProbability 20000000 15 50 chemical
     <= calculateSuccessProbability 10000000 15 50 chemical
  /\ calculateSuccessProbability 10000000 15 50 chemical
     <= calculateSuccessProbability 10000000 15 80 chemical.
Proof.
  split; [exact (proj1 (success_probability_range_and_monotone
                          0 65 (-100) chemical))|].
  split.
  - apply (proj1 (proj2 (success_probability_range_and_monotone
                           10000000 15 50 chemical)) 20000000);
      discriminate.
  - apply (proj2 (proj2 (success_probability_range_and_monotone
                           10000000 15 50 chemical)) 80);
      discriminate.
Defined.

(** C3 as stated fails on finite inputs.  With a fuel level of -100 a
    distance of 50 million km scores 60 where a distance of 0 scores 10, and
    raising the fuel level from -100 to 0 lowers the score from 10 to 5; the
    binary64 evaluation gives the same values.  With a velocity of 2^1023 and
    no fuel the velocity penalty overflows to infinity, the fuel factor
    multiplies it by zero, and the result is [NaN], outside every band. *)
Lemma success_probability_counterexample :
  (calculateSuccessProbability 0 65 (-100) chemical == 10
   /\ calculateSuccessProbability 50000000 65 (-100) chemical == 60
   /\ calculateSuccessProbability 0 65 0 chemical == 5)
  /\ (calculateSuccessProbability_f64 0 65 (-100) chemical = 10
      /\ calculateSuccessProbability_f64 50000000 65 (-100) chemical = 60
      /\ calculateSuccessProbability_f64 0 65 0 chemical = 5)%float
  /\ (is_finite 0x1p1023 = true
      /\ is_nan (calculateSuccessProbability_f64 0 0x1p1023 0 chemical)
         = true
      /\ (5 <=? calculateSuccessProbability_f64 0 0x1p1023 0 chemical)
         = false)%float.
Proof. repeat split. Qed.

End SuccessProbability.

(** ** Orbital mechanics (utils/orbitalMechanics), over the reals *)

Module OrbitalMechanics.

Open Scope R_scope.

Record OrbitalElements := mkElements {
  a : R;
  e : R;
  i : R;
  omega : R;
  Omega : R;
  M0 : R;
  epoch : R
}.

(** A [THREE.Vector3]. *)
Record Vector3 := mkVector3 {
  vx : R;
  vy : R;
  vz : R
}.

Definition degToRad (degrees : R) : R := degrees * (PI / 180).

Definition radToDeg (radians : R) : R := radians * (180 / PI).

Definition calculateMeanAnomaly (elements : OrbitalElements) (time : R) : R :=
  let n := sqrt (398600.4418 / Rabs (a elements ^ 3)) in
  let dt := time - epoch elements in
  M0 elements + n * dt.

(** The default [tolerance = 1e-6]. *)
Definition defaultTolerance : R := 1 / 1000000.

(** The [while] loop of [solveKeplerEquation].  The loop has no iteration
    cap; [fuel] bounds the number of iterations the model follows, and [None]
    means the loop was still running when the fuel ran out. *)
Fixpoint keplerLoop (fuel : nat) (M e tolerance E deltaE : R) : option R :=
  if Rgt_dec (Rabs deltaE) tolerance then
    match fuel with
    | O => None
    | S fuel' =>
        let f := E - e * sin E - M in
        let df := 1 - e * cos E in
        let deltaE := f / df in
        let E := E - deltaE in
        keplerLoop fuel' M e tolerance E deltaE
    end
  else Some E.

Definition solveKeplerEquation (fuel : nat) (M e tolerance : R) : option R :=
  keplerLoop fuel M e tolerance M 1.

(** [Math.atan2(y, x)] *)
Definition atan2 (y x : R) : R :=
  if Rlt_dec 0 x then atan (y / x)
  else if Rlt_dec x 0 then
    if Rle_dec 0 y then atan (y / x) + PI else atan (y / x) - PI
  else if Rlt_dec 0 y then PI / 2
  else if Rlt_dec y 0 then - (PI / 2)
  else 0.

Definition calculateTrueAnomaly (E e : R) : R :=
  2 * atan2 (sqrt (1 + e) * sin (E / 2)) (sqrt (1 - e) * cos (E / 2)).

Definition calculateOrbitalPosition (elements : OrbitalElements) (nu : R)
    : R * R :=
  let r := a elements * (1 - e elements ^ 2)
           / (1 + e elements * cos nu) in
  let x := r * cos nu in
  let y := r * sin nu in
  (x, y).

Definition transformToEcliptic (x y : R) (elements : OrbitalElements)
    : R * R * R :=
  let i := degToRad (i elements) in
  let omega := degToRad (omega elements) in
  let Omega := degToRad (Omega elements) in
  let cosOmega := cos omega in
  let sinOmega := sin omega in
  let cosI := cos i in
  let sinI := sin i in
  let cosCapOmega := cos Omega in
  let sinCapOmega := sin Omega in
  let X := (cosOmega * cosCapOmega - sinOmega * sinCapOmega * cosI) * x
           + (- sinOmega * cosCapOmega - cosOmega * sinCapOmega * cosI) * y in
  let Y := (cosOmega * sinCapOmega + sinOmega * cosCapOmega * cosI) * x
           + (- sinOmega * sinCapOmega + cosOmega * cosCapOmega * cosI) * y in
  let Z := (sinOmega * sinI) * x + (cosOmega * sinI) * y in
  (X, Y, Z).

(** The elliptical branch of [calculatePosition]. *)
Definition calculatePositionElliptic (fuel : nat) (time : R)
    (elements : OrbitalElements) : option (R * R * R) :=
  let M := calculateMeanAnomaly elements time in
  match solveKeplerEquation fuel M (e elements) defaultTolerance with
  | Some E =>
      let nu := calculateTrueAnomaly E (e elements) in
      let '(x, y) := calculateOrbitalPosition elements nu in
      Some (transformToEcliptic x y elements)
  | None => None
  end.

(** Point [i] of [createOrbitPath]. *)
Definition orbitPoint (a e : R) (numPoints i : nat) : Vector3 :=
  let nu := (INR i / INR numPoints) * 2 * PI in
  let r := a * (1 - e ^ 2) / (1 + e * cos nu) in
  let x := r * cos nu in
  let z := r * sin nu in
  mkVector3 x 0 z.

(** [createOrbitPath]: the loop pushes point [i] for [i = 0 .. numPoints]. *)
Definition createOrbitPath (a e : R) (numPoints : nat) : list Vector3 :=
  map (orbitPoint a e numPoints) (seq 0 (S numPoints)).

(** Euclidean distance of a point from the origin. *)
Definition norm3 (p : R * R * R) : R :=
  let '(X, Y, Z) := p in sqrt (X * X + Y * Y + Z * Z).

(** *** The rotation keeps lengths *)

Lemma rotation_preserves_square (c1 s1 c2 s2 c3 s3 x y : R) :
  s1 * s1 + c1 * c1 = 1 ->
  s2 * s2 + c2 * c2 = 1 ->
  s3 * s3 + c3 * c3 = 1 ->
  let X := (c1 * c3 - s1 * s3 * c2) * x + (- s1 * c3 - c1 * s3 * c2) * y in
  let Y := (c1 * s3 + s1 * c3 * c2) * x + (- s1 * s3 + c1 * c3 * c2) * y in
  let Z := (s1 * s2) * x + (c1 * s2) * y in
  X * X + Y * Y + Z * Z = x * x + y * y.
Proof.
  intros H1 H2 H3 X Y Z. subst X Y Z.
  assert (T1 : s1 * s1 + c1 * c1 - 1 = 0) by lra.
  assert (T2 : s2 * s2 + c2 * c2 - 1 = 0) by lra.
  assert (T3 : s3 * s3 + c3 * c3 - 1 = 0) by lra.
  transitivity
    (x * x + y * y
     + x * x * ((c1 * c1 + s1 * s1 * c2 * c2) * (s3 * s3 + c3 * c3 - 1)
                + s1 * s1 * (s2 * s2 + c2 * c2 - 1)
                + (s1 * s1 + c1 * c1 - 1))
     + y * y * ((s1 * s1 + c1 * c1 * c2 * c2) * (s3 * s3 + c3 * c3 - 1)
                + c1 * c1 * (s2 * s2 + c2 * c2 - 1)
                + (s1 * s1 + c1 * c1 - 1))
     + 2 * x * y * s1 * c1 * ((c2 * c2 - 1) * (s3 * s3 + c3 * c3 - 1)
                              + (s2 * s2 + c2 * c2 - 1))).
  - ring.
  - rewrite T1, T2, T3. ring.
Qed.

Lemma sin_cos_square (t : R) : sin t * sin t + cos t * cos t = 1.
Proof. generalize (sin2_cos2 t). unfold Rsqr. lra. Qed.

Lemma transformToEcliptic_norm (x y : R) (elements : OrbitalElements) :
  norm3 (transformToEcliptic x y elements) = sqrt (x * x + y * y).
Proof.
  unfold norm3, transformToEcliptic. f_equal.
  apply rotation_preserves_square; apply sin_cos_square.
Qed.

(** *** Circular orbits *)

Lemma defaultTolerance_pos : 0 < defaultTolerance.
Proof. unfold defaultTolerance. lra. Qed.

(** With eccentricity zero the Newton iteration stops after one step, at
    [E = M]. *)
Lemma solveKepler_circular (fuel : nat) (M tolerance : R) :
  (1 <= fuel)%nat -> 0 < tolerance -> tolerance < 1 ->
  solveKeplerEquation fuel M 0 tolerance = Some M.
Proof.
  intros Hfuel Hpos Hlt.
  destruct fuel as [|fuel]; [lia|].
  unfold solveKeplerEquation. cbn [keplerLoop].
  destruct (Rgt_dec (Rabs 1) tolerance) as [_|Hn].
  - replace ((M - 0 * sin M - M) / (1 - 0 * cos M)) with 0 by (field; lra).
    replace (M - 0) with M by ring.
    destruct fuel; cbn [keplerLoop];
      (destruct (Rgt_dec (Rabs 0) tolerance) as [Hgt|_];
       [rewrite Rabs_R0 in Hgt; lra|reflexivity]).
  - exfalso. apply Hn. rewrite Rabs_R1. lra.
Qed.

Lemma circular_orbital_position (elements : OrbitalElements) (nu : R) :
  e elements = 0 ->
  calculateOrbitalPosition elements nu
  = (a elements * cos nu, a elements * sin nu).
Proof.
  intro He. unfold calculateOrbitalPosition. rewrite He.
  replace (a elements * (1 - 0 ^ 2) / (1 + 0 * cos nu)) with (a elements)
    by (field; lra).
  reflexivity.
Qed.

(** C7.  For a circular orbit ([e = 0]) of radius [a], whatever the mean
    anomaly, the Kepler solve ends, and the true anomaly it leads to, placed
    in the orbital plane and rotated into the ecliptic frame, is a point at
    distance [a] from the origin. *)
Theorem circular_orbit_fixed_radius :
  forall (elements : OrbitalElements) (M : R) (fuel : nat),
    e elements = 0 ->
    0 <= a elements ->
    (1 <= fuel)%nat ->
    exists E,
      solveKeplerEquation fuel M 0 defaultTolerance = Some E
      /\ let nu := calculateTrueAnomaly E 0 in
         let '(x, y) := calculateOrbitalPosition elements nu in
         norm3 (transformToEcliptic x y elements) = a elements.
Proof.
  intros elements M fuel He Ha Hfuel.
  exists M. split.
  - apply solveKepler_circular; [exact Hfuel|apply defaultTolerance_pos|].
    unfold defaultTolerance. lra.
  - cbv zeta. rewrite circular_orbital_position by exact He.
    rewrite transformToEcliptic_norm.
    set (nu := calculateTrueAnomaly M 0).
    replace (a elements * cos nu * (a elements * cos nu)
             + a elements * sin nu * (a elements * sin nu))
      with (a elements * a elements
            * (sin nu * sin nu + cos nu * cos nu)) by ring.
    rewrite sin_cos_square, Rmult_1_r.
    apply sqrt_square. exact Ha.
Qed.

(** The Earth-like circular orbit of the specification's round trip. *)
Definition unitCircle : OrbitalElements := mkElements 1 0 0 0 0 0 0.

Lemma circular_orbit_fixed_radius_witness :
  exists E,
    solveKeplerEquation 1 2 0 defaultTolerance = Some E
    /\ let nu := calculateTrueAnomaly E 0 in
       let '(x, y) := calculateOrbitalPosition unitCircle nu in
       norm3 (transformToEcliptic x y unitCircle) = a unitCircle.
Proof.
  apply (circular_orbit_fixed_radius unitCircle 2 1).
  - reflexivity.
  - simpl. lra.
  - lia.
Defined.

(** *** What the Newton iteration returns when it stops

    The loop of [solveKeplerEquation] has no cap and its termination is not
    established here for eccentricities other than zero.  What follows is the
    partial statement: a run that stops returns a value whose residual in
    Kepler's equation is of second order in the tolerance. *)

Definition keplerResidual (M e E : R) : R := E - e * sin E - M.

Lemma Rabs_between (u m : R) : Rabs u <= m -> - m <= u <= m.
Proof. unfold Rabs. destruct (Rcase_abs u); lra. Qed.

Lemma cos_near_one (t : R) : Rabs t <= 1 -> 1 - t * t / 2 <= cos t <= 1.
Proof.
  intro H. apply Rabs_between in H.
  split; [|apply COS_bound].
  destruct (pre_cos_bound t 0) as [Hlb _]; [lra|lra|].
  unfold cos_approx, cos_term in Hlb. simpl in Hlb. lra.
Qed.

Lemma sin_near_id_pos (t : R) :
  0 <= t <= 1 -> t - t * t * t / 6 <= sin t <= t.
Proof.
  intros [H0 H1]. split.
  - destruct (pre_sin_bound t 0) as [Hlb _]; [lra|lra|].
    unfold sin_approx, sin_term in Hlb. simpl in Hlb. lra.
  - destruct (Req_dec t 0) as [->|Hne]; [rewrite sin_0; lra|].
    left. apply sin_lt_x. lra.
Qed.

Lemma sin_near_id (t : R) :
  Rabs t <= 1 -> Rabs (sin t - t) <= Rabs t * Rabs t * Rabs t / 6.
Proof.
  intro H. destruct (Rle_dec 0 t) as [Hp|Hn].
  - rewrite (Rabs_pos_eq t) in * by exact Hp.
    destruct (sin_near_id_pos t) as [Hl Hu]; [lra|].
    apply Rabs_le. nra.
  - assert (Hneg : t < 0) by lra.
    rewrite (Rabs_left t) in * by exact Hneg.
    destruct (sin_near_id_pos (- t)) as [Hl Hu]; [lra|].
    rewrite sin_neg in Hl, Hu.
    apply Rabs_le. nra.
Qed.

Lemma newton_step_remainder (t d : R) :
  Rabs d <= 1 ->
  Rabs (sin (t - d) - sin t + d * cos t)
  <= d * d / 2 + Rabs d * Rabs d * Rabs d / 6.
Proof.
  intro H.
  rewrite sin_minus.
  replace (sin t * cos d - cos t * sin d - sin t + d * cos t)
    with (sin t * (cos d - 1) - cos t * (sin d - d)) by ring.
  pose proof (cos_near_one d H) as [Hc1 Hc2].
  pose proof (sin_near_id d H) as Hs.
  pose proof (SIN_bound t) as Hst. pose proof (COS_bound t) as Hct.
  assert (A : Rabs (sin t * (cos d - 1)) <= d * d / 2).
  { rewrite Rabs_mult.
    assert (Rabs (sin t) <= 1) by (apply Rabs_le; lra).
    assert (Rabs (cos d - 1) <= d * d / 2) by (apply Rabs_le; lra).
    pose proof (Rabs_pos (sin t)). pose proof (Rabs_pos (cos d - 1)). nra. }
  assert (B : Rabs (cos t * (sin d - d)) <= Rabs d * Rabs d * Rabs d / 6).
  { rewrite Rabs_mult.
    assert (Rabs (cos t) <= 1) by (apply Rabs_le; lra).
    pose proof (Rabs_pos (cos t)). pose proof (Rabs_pos (sin d - d)). nra. }
  unfold Rminus at 1.
  eapply Rle_trans; [apply Rabs_triang|].
  rewrite Rabs_Ropp. lra.
Qed.

(** A run that stops returns the result of a Newton step of size at most the
    tolerance. *)
Lemma keplerLoop_last_step (M e tolerance : R) :
  forall (fuel : nat) (E deltaE result : R),
    (Rabs deltaE <= tolerance ->
     exists prev,
       deltaE = keplerResidual M e prev / (1 - e * cos prev)
       /\ E = prev - deltaE) ->
    keplerLoop fuel M e tolerance E deltaE = Some result ->
    exists prev,
      Rabs (keplerResidual M e prev / (1 - e * cos prev)) <= tolerance
      /\ result = prev - keplerResidual M e prev / (1 - e * cos prev).
Proof.
  induction fuel as [|fuel IH]; intros E deltaE result Hinv Hrun;
    cbn [keplerLoop] in Hrun;
    destruct (Rgt_dec (Rabs deltaE) tolerance) as [Hgt|Hle];
    try discriminate.
  - injection Hrun as <-.
    destruct Hinv as [prev [Hd HE]]; [lra|].
    exists prev. rewrite <- Hd. split; [lra|exact HE].
  - apply IH in Hrun; [exact Hrun|].
    intros _. exists E. split; reflexivity.
  - injection Hrun as <-.
    destruct Hinv as [prev [Hd HE]]; [lra|].
    exists prev. rewrite <- Hd. split; [lra|exact HE].
Qed.

Lemma solveKepler_residual (fuel : nat) (M e tolerance E : R) :
  0 <= e < 1 -> 0 < tolerance < 1 ->
  solveKeplerEquation fuel M e tolerance = Some E ->
  Rabs (keplerResidual M e E)
  <= e * (tolerance * tolerance / 2
          + tolerance * tolerance * tolerance / 6).
Proof.
  intros He Htol Hrun. unfold solveKeplerEquation in Hrun.
  apply keplerLoop_last_step in Hrun.
  - destruct Hrun as [prev [Hstep ->]].
    set (d := keplerResidual M e prev / (1 - e * cos prev)) in *.
    assert (Hdf : 0 < 1 - e * cos prev)
      by (generalize (COS_bound prev); nra).
    assert (Hd : d * (1 - e * cos prev) = keplerResidual M e prev)
      by (unfold d; field; lra).
    assert (Hres : keplerResidual M e (prev - d)
                   = - e * (sin (prev - d) - sin prev + d * cos prev)).
    { unfold keplerResidual in *. lra. }
    rewrite Hres, Rabs_mult, Rabs_Ropp, (Rabs_pos_eq e) by lra.
    apply Rmult_le_compat_l; [lra|].
    eapply Rle_trans; [apply newton_step_remainder; lra|].
    pose proof (Rabs_pos d) as Hp.
    assert (Hsq : d * d = Rabs d * Rabs d)
      by (unfold Rabs; destruct (Rcase_abs d); ring).
    rewrite Hsq.
    assert (H2 : Rabs d * Rabs d <= tolerance * tolerance) by nra.
    assert (H3 : Rabs d * Rabs d * Rabs d
                 <= tolerance * tolerance * tolerance) by nra.
    lra.
  - intro H. rewrite Rabs_R1 in H. lra.
Qed.

(** With the default tolerance the residual of a returned value is below the
    tolerance. *)
Lemma solveKepler_residual_default (fuel : nat) (M e E : R) :
  0 <= e < 1 ->
  solveKeplerEquation fuel M e defaultTolerance = Some E ->
  Rabs (E - e * sin E - M) < defaultTolerance.
Proof.
  intros He Hrun.
  apply solveKepler_residual in Hrun;
    [|exact He|unfold defaultTolerance; lra].
  unfold keplerResidual, defaultTolerance in *.
  eapply Rle_lt_trans; [exact Hrun|]. nra.
Qed.

(** *** Orbit paths *)

Lemma createOrbitPath_length (a e : R) (numPoints : nat) :
  List.length (createOrbitPath a e numPoints) = S numPoints.
Proof. unfold createOrbitPath. now rewrite length_map, length_seq. Qed.

Lemma createOrbitPath_nth (a e : R) (numPoints k : nat) (d : Vector3) :
  (k <= numPoints)%nat ->
  nth k (createOrbitPath a e numPoints) d = orbitPoint a e numPoints k.
Proof.
  intro Hk. unfold createOrbitPath.
  rewrite (nth_indep _ d (orbitPoint a e numPoints 0%nat))
    by (rewrite length_map, length_seq; lia).
  rewrite map_nth, seq_nth by lia. reflexivity.
Qed.

Lemma orbitPoint_first (a e : R) (numPoints : nat) :
  orbitPoint a e numPoints 0 = mkVector3 (a * (1 - e ^ 2) / (1 + e)) 0 0.
Proof.
  unfold orbitPoint. cbn [INR].
  replace (0 / INR numPoints * 2 * PI) with 0
    by (unfold Rdiv; ring).
  rewrite cos_0, sin_0. f_equal; [|ring].
  rewrite !Rmult_1_r. reflexivity.
Qed.

Lemma orbitPoint_last (a e : R) (numPoints : nat) :
  (1 <= numPoints)%nat ->
  orbitPoint a e numPoints numPoints
  = mkVector3 (a * (1 - e ^ 2) / (1 + e)) 0 0.
Proof.
  intro Hn. unfold orbitPoint.
  assert (Hne : INR numPoints <> 0) by (apply not_0_INR; lia).
  replace (INR numPoints / INR numPoints * 2 * PI) with (2 * PI)
    by (field; exact Hne).
  rewrite cos_2PI, sin_2PI. f_equal; [|ring].
  rewrite !Rmult_1_r. reflexivity.
Qed.

Lemma quarter_turns :
  INR 1 / INR 4 * 2 * PI = PI / 2
  /\ INR 2 / INR 4 * 2 * PI = PI
  /\ INR 3 / INR 4 * 2 * PI = 3 * (PI / 2)
  /\ INR 4 / INR 4 * 2 * PI = 2 * PI.
Proof. repeat split; simpl; field. Qed.

Lemma unit_circle_radius (c : R) : 1 * (1 - 0 ^ 2) / (1 + 0 * c) = 1.
Proof. field; lra. Qed.

Lemma unit_square_path :
  createOrbitPath 1 0 4
  = [mkVector3 1 0 0; mkVector3 0 0 1; mkVector3 (-1) 0 0;
     mkVector3 0 0 (-1); mkVector3 1 0 0].
Proof.
  destruct quarter_turns as [Q1 [Q2 [Q3 Q4]]].
  unfold createOrbitPath. cbn [seq map].
  rewrite orbitPoint_first.
  unfold orbitPoint. rewrite Q1, Q2, Q3, Q4, !unit_circle_radius.
  rewrite cos_PI2, sin_PI2, cos_PI, sin_PI, cos_3PI2, sin_3PI2,
    cos_2PI, sin_2PI.
  repeat (f_equal; try lra).
Qed.

(** C8.  [createOrbitPath a e numPoints] returns [numPoints + 1] points whose
    first and last coincide; and [createOrbitPath 1 0 4] is exactly the five
    points of the unit circle at true anomalies 0, 1/4, 1/2, 3/4 and 1 turn,
    in the plane [y = 0], the fifth on the first.  The two hypotheses keep
    the divisions of the first and last point ([i / numPoints] and the radius
    at periapsis, over [1 + e]) away from a zero divisor, where the code
    computes [NaN] and the real-number reading does not apply. *)
Theorem orbit_path_closed_loop :
  forall (a e : R) (numPoints : nat) (d : Vector3),
    1 + e <> 0 ->
    (1 <= numPoints)%nat ->
    List.length (createOrbitPath a e numPoints) = S numPoints
    /\ nth 0 (createOrbitPath a e numPoints) d
       = nth numPoints (createOrbitPath a e numPoints) d
    /\ createOrbitPath 1 0 4
       = [mkVector3 (cos 0) 0 (sin 0);
          mkVector3 (cos (PI / 2)) 0 (sin (PI / 2));
          mkVector3 (cos PI) 0 (sin PI);
          mkVector3 (cos (3 * (PI / 2))) 0 (sin (3 * (PI / 2)));
          mkVector3 (cos (2 * PI)) 0 (sin (2 * PI))]
    /\ nth 4 (createOrbitPath 1 0 4) d = nth 0 (createOrbitPath 1 0 4) d.
Proof.
  intros a e numPoints d He Hn.
  split; [apply createOrbitPath_length|].
  split.
  - rewrite !createOrbitPath_nth by lia.
    rewrite orbitPoint_first, orbitPoint_last by exact Hn. reflexivity.
  - rewrite unit_square_path.
    rewrite cos_0, sin_0, cos_PI2, sin_PI2, cos_PI, sin_PI, cos_3PI2,
      sin_3PI2, cos_2PI, sin_2PI.
    split; reflexivity.
Qed.

Lemma orbit_path_closed_loop_witness :
  List.length (createOrbitPath 1 0 4) = 5%nat
  /\ nth 0 (createOrbitPath 1 0 4) (mkVector3 0 0 0)
     = nth 4 (createOrbitPath 1 0 4) (mkVector3 0 0 0)
  /\ createOrbitPath 1 0 4
     = [mkVector3 (cos 0) 0 (sin 0);
        mkVector3 (cos (PI / 2)) 0 (sin (PI / 2));
        mkVector3 (cos PI) 0 (sin PI);
        mkVector3 (cos (3 * (PI / 2))) 0 (sin (3 * (PI / 2)));
        mkVector3 (cos (2 * PI)) 0 (sin (2 * PI))]
  /\ nth 4 (createOrbitPath 1 0 4) (mkVector3 0 0 0)
     = nth 0 (createOrbitPath 1 0 4) (mkVector3 0 0 0).
Proof.
  apply (orbit_path_closed_loop 1 0 4 (mkVector3 0 0 0)).
  - lra.
  - lia.
Defined.

End OrbitalMechanics.

(** ** Scene composition: the target-body path (SolarSystemVisualization) *)

Module ParabolicPath.

Import OrbitalMechanics.

Open Scope R_scope.

Definition scaleAU : R := 30.
Definition verticalScale : R := 6.

Definition mapToScene (x y z : R) : R * R * R :=
  (x * scaleAU, z * scaleAU * verticalScale, - y * scaleAU).

(** The orientation fields read from the fetched elements; a field may be
    missing. *)
Record AtlasElements := mkAtlasElements {
  atlas_i : option R;
  atlas_omega : option R;
  atlas_Omega : option R
}.

(** [v || 0] for a field that is a real number or missing. *)
Definition orZero (v : option R) : R :=
  match v with
  | Some r => r
  | None => 0
  end.

(** The result of a division that may not be finite: dividing by zero gives
    an infinity or [NaN]. *)
Inductive Quotient :=
| Finite (r : R)
| NonFinite.

Definition divide (x y : R) : Quotient :=
  if Req_dec_T y 0 then NonFinite else Finite (x / y).

Definition q : R := 0.3.
Definition p : R := 2 * q.
Definition epsilon : R := 0.01.
Definition minNu : R := - PI + epsilon.
Definition maxNu : R := PI - epsilon.
Definition steps : nat := 2000.
Definition maxRAU : R := 300.

(** [let r = p / (1 + Math.cos(nu)); if (!Number.isFinite(r) || r > maxRAU)
    r = maxRAU] *)
Definition cappedRadius (nu : R) : R :=
  match divide p (1 + cos nu) with
  | NonFinite => maxRAU
  | Finite r => if Rgt_dec r maxRAU then maxRAU else r
  end.

Section Path.

Variable atlasElements : AtlasElements.

Definition toScene (x_orb y_orb : R) : Vector3 :=
  let i := orZero (atlas_i atlasElements) * PI / 180 in
  let omega := orZero (atlas_omega atlasElements) * PI / 180 in
  let Omega := orZero (atlas_Omega atlasElements) * PI / 180 in
  let cos_Omega := cos Omega in
  let sin_Omega := sin Omega in
  let cos_i := cos i in
  let sin_i := sin i in
  let cos_omega := cos omega in
  let sin_omega := sin omega in
  let x := (cos_Omega * cos_omega - sin_Omega * sin_omega * cos_i) * x_orb
           + (- cos_Omega * sin_omega - sin_Omega * cos_omega * cos_i)
             * y_orb in
  let y := (sin_Omega * cos_omega + cos_Omega * sin_omega * cos_i) * x_orb
           + (- sin_Omega * sin_omega + cos_Omega * cos_omega * cos_i)
             * y_orb in
  let z := (sin_i * sin_omega) * x_orb + (sin_i * cos_omega) * y_orb in
  let '(m0, m1, m2) := mapToScene x y z in
  mkVector3 m0 m1 m2.

(** The true anomaly of sample [s]. *)
Definition sampleNu (s : nat) : R :=
  minNu + (INR s / INR steps) * (maxNu - minNu).

(** The point pushed at step [s] of the sampling loop. *)
Definition samplePoint (s : nat) : Vector3 :=
  let nu := sampleNu s in
  let r := cappedRadius nu in
  let x_orb := r * cos nu in
  let y_orb := r * sin nu in
  toScene x_orb y_orb.

(** The sampling loop, [s = 0 .. steps]. *)
Definition parabolicPoints : list Vector3 :=
  map samplePoint (seq 0 (S steps)).

End Path.

(** *** The cap *)

Lemma one_plus_cos_nonneg (nu : R) : 0 <= 1 + cos nu.
Proof. generalize (COS_bound nu). lra. Qed.

Lemma p_pos : 0 < p.
Proof. unfold p, q. lra. Qed.

Lemma cappedRadius_bounds (nu : R) : 0 < cappedRadius nu <= maxRAU.
Proof.
  unfold cappedRadius, divide.
  destruct (Req_dec_T (1 + cos nu) 0) as [Hz|Hnz].
  - unfold maxRAU. lra.
  - destruct (Rgt_dec (p / (1 + cos nu)) maxRAU) as [Hgt|Hle].
    + unfold maxRAU. lra.
    + split; [|lra].
      apply Rdiv_lt_0_compat; [apply p_pos|].
      generalize (one_plus_cos_nonneg nu). lra.
Qed.

(** At the singularity itself the quotient is not finite and the cap is what
    is used. *)
Lemma cappedRadius_at_PI : cappedRadius PI = maxRAU.
Proof.
  unfold cappedRadius, divide. rewrite cos_PI.
  destruct (Req_dec_T (1 + -1) 0) as [_|Hn]; [reflexivity|].
  exfalso. apply Hn. lra.
Qed.

Lemma square_bound (u m : R) : 0 <= m -> u * u <= m * m -> - m <= u <= m.
Proof. intros Hm H. nra. Qed.

Lemma toScene_bounds (el : AtlasElements) (r nu : R) :
  0 <= r <= maxRAU ->
  let pt := toScene el (r * cos nu) (r * sin nu) in
  Rabs (vx pt) <= 9000 /\ Rabs (vy pt) <= 54000 /\ Rabs (vz pt) <= 9000.
Proof.
  intros Hr. unfold toScene, mapToScene, scaleAU, verticalScale.
  cbv zeta. cbn [vx vy vz].
  set (I := orZero (atlas_i el) * PI / 180).
  set (w := orZero (atlas_omega el) * PI / 180).
  set (W := orZero (atlas_Omega el) * PI / 180).
  set (xo := r * cos nu). set (yo := r * sin nu).
  pose proof (rotation_preserves_square (cos w) (sin w) (cos I) (sin I)
                (cos W) (sin W) xo yo
                (sin_cos_square w) (sin_cos_square I) (sin_cos_square W))
    as Hrot.
  cbv zeta in Hrot.
  set (X := (cos W * cos w - sin W * sin w * cos I) * xo
            + (- cos W * sin w - sin W * cos w * cos I) * yo).
  set (Y := (sin W * cos w + cos W * sin w * cos I) * xo
            + (- sin W * sin w + cos W * cos w * cos I) * yo).
  set (Z := sin I * sin w * xo + sin I * cos w * yo).
  assert (Hsum : X * X + Y * Y + Z * Z = r * r).
  { transitivity (xo * xo + yo * yo).
    - rewrite <- Hrot. subst X Y Z. ring.
    - subst xo yo.
      replace (r * cos nu * (r * cos nu) + r * sin nu * (r * sin nu))
        with (r * r * (sin nu * sin nu + cos nu * cos nu)) by ring.
      rewrite sin_cos_square. ring. }
  unfold maxRAU in Hr.
  assert (Hrr : r * r <= 300 * 300) by nra.
  assert (HX : - 300 <= X <= 300) by (apply square_bound; nra).
  assert (HY : - 300 <= Y <= 300) by (apply square_bound; nra).
  assert (HZ : - 300 <= Z <= 300) by (apply square_bound; nra).
  repeat split; apply Rabs_le; lra.
Qed.

(** C9.  The radius used for a sample is positive and at most 300 AU at every
    true anomaly, the singular one included, where the cap replaces the
    quotient that is not finite; the path has 2001 points; and every
    coordinate of every point is bounded (by 300 AU in scene units: 9000, and
    54000 on the exaggerated axis), whatever the orientation of the orbit. *)
Theorem parabolic_path_capped :
  forall el : AtlasElements,
    (forall nu, 0 < cappedRadius nu <= 300)
    /\ cappedRadius PI = 300
    /\ List.length (parabolicPoints el) = 2001%nat
    /\ Forall (fun pt => Rabs (vx pt) <= 9000 /\ Rabs (vy pt) <= 54000
                         /\ Rabs (vz pt) <= 9000)
              (parabolicPoints el).
Proof.
  intro el.
  split; [exact cappedRadius_bounds|].
  split; [exact cappedRadius_at_PI|].
  split.
  - unfold parabolicPoints. now rewrite length_map, length_seq.
  - unfold parabolicPoints. apply Forall_map, Forall_forall.
    intros s _. unfold samplePoint. cbv zeta.
    apply toScene_bounds.
    generalize (cappedRadius_bounds (sampleNu s)). lra.
Qed.

End ParabolicPath.

(** ** Scene composition: splitting the path at the live position *)

Module PathSplit.

Open Scope Q_scope.

(** A [THREE.Vector3] with rational coordinates. *)
Record Vector3 := mkVector3 {
  x : Q;
  y : Q;
  z : Q
}.

(** [v.distanceToSquared(w)] *)
Definition distanceToSquared (v w : Vector3) : Q :=
  let dx := x v - x w in
  let dy := y v - y w in
  let dz := z v - z w in
  dx * dx + dy * dy + dz * dz.

(** The search loop from index [idx] on, over the points not yet visited. *)
Fixpoint splitLoop (posVec : Vector3) (rest : list Vector3)
    (idx splitIndex : nat) (minDist : JsNum.t) : nat :=
  match rest with
  | [] => splitIndex
  | pt :: rest' =>
      let d := distanceToSquared pt posVec in
      if JsNum.ltb (JsNum.Fin d) minDist
      then splitLoop posVec rest' (S idx) idx (JsNum.Fin d)
      else splitLoop posVec rest' (S idx) splitIndex minDist
  end.

(** [let splitIndex = 0; let minDist = Number.POSITIVE_INFINITY; for ...] *)
Definition findSplitIndex (points : list Vector3) (posVec : Vector3) : nat :=
  splitLoop posVec points 0 0 JsNum.PosInf.

(** [points.slice(0, Math.max(1, splitIndex))] *)
Definition atlasPathPast (points : list Vector3) (posVec : Vector3)
    : list Vector3 :=
  firstn (Nat.max 1 (findSplitIndex points posVec)) points.

(** [points.slice(splitIndex)] *)
Definition atlasPathFuture (points : list Vector3) (posVec : Vector3)
    : list Vector3 :=
  skipn (findSplitIndex points posVec) points.

(** *** Example: samples moving away along a line *)

Definition onLine (k : nat) : Vector3 := mkVector3 (inject_Z (Z.of_nat k)) 0 0.

Definition linePath : list Vector3 := map onLine (seq 0 21).

Example line_split_index : findSplitIndex linePath (onLine 10) = 10%nat.
Proof. reflexivity. Qed.

Example line_split_first : findSplitIndex linePath (onLine 0) = 0%nat.
Proof. reflexivity. Qed.

Example line_past_first : List.length (atlasPathPast linePath (onLine 0)) = 1%nat.
Proof. reflexivity. Qed.

(** *** The search finds the first sample at the live position *)

Lemma distance_nonneg (v w : Vector3) : 0 <= distanceToSquared v w.
Proof.
  unfold distanceToSquared. cbv zeta.
  generalize (x v - x w) (y v - y w) (z v - z w). intros a b c. nra.
Qed.

Lemma distance_self (v : Vector3) : distanceToSquared v v == 0.
Proof. unfold distanceToSquared. cbv zeta. ring. Qed.

(** The running minimum is still above zero. *)
Definition above_zero (m : JsNum.t) : Prop :=
  match m with
  | JsNum.PosInf => True
  | JsNum.Fin a => 0 < a
  | _ => False
  end.

Lemma ltb_fin_true (d : Q) (m : JsNum.t) :
  d <= 0 -> above_zero m -> JsNum.ltb (JsNum.Fin d) m = true.
Proof.
  intros Hd Hm. destruct m as [| | |a]; cbn in *; try tauto.
  apply MissionStore.Qltb_true_iff. lra.
Qed.

Lemma ltb_fin_false (d a : Q) :
  a <= d -> JsNum.ltb (JsNum.Fin d) (JsNum.Fin a) = false.
Proof.
  intro H. cbn. apply not_true_is_false. intro Ht.
  apply MissionStore.Qltb_true_iff in Ht. lra.
Qed.

(** Once the minimum is zero no later sample replaces the index. *)
Lemma splitLoop_settled (posVec : Vector3) (rest : list Vector3) :
  forall (idx splitIndex : nat) (a : Q),
    a <= 0 ->
    splitLoop posVec rest idx splitIndex (JsNum.Fin a) = splitIndex.
Proof.
  induction rest as [|pt rest IH]; intros idx splitIndex a Ha;
    [reflexivity|].
  cbn [splitLoop]. rewrite ltb_fin_false.
  - now apply IH.
  - generalize (distance_nonneg pt posVec). lra.
Qed.

(** While every sample seen is away from the position, the minimum stays
    above zero; the first sample at the position takes the index. *)
Lemma splitLoop_first_hit (posVec hit : Vector3)
    (before after : list Vector3) :
  distanceToSquared hit posVec == 0 ->
  Forall (fun pt => 0 < distanceToSquared pt posVec) before ->
  forall (idx splitIndex : nat) (m : JsNum.t),
    above_zero m ->
    splitLoop posVec (before ++ hit :: after) idx splitIndex m
    = (idx + List.length before)%nat.
Proof.
  intros Hhit Hbefore.
  induction Hbefore as [|pt before Hpt _ IH]; intros idx splitIndex m Hm.
  - cbn [app splitLoop List.length]. rewrite ltb_fin_true; [|lra|exact Hm].
    rewrite splitLoop_settled by lra. lia.
  - cbn [app splitLoop List.length].
    destruct (JsNum.ltb (JsNum.Fin (distanceToSquared pt posVec)) m).
    + rewrite IH by exact Hpt. lia.
    + rewrite IH by exact Hm. lia.
Qed.

Lemma split_nth {A : Type} (l : list A) (n : nat) (d : A) :
  (n < List.length l)%nat ->
  l = (firstn n l ++ nth n l d :: skipn (S n) l)%list.
Proof.
  revert n. induction l as [|h t IH]; intros n Hn; cbn in Hn; [lia|].
  destruct n as [|n]; cbn; [reflexivity|].
  f_equal. apply IH. lia.
Qed.

Lemma findSplitIndex_first_hit (points : list Vector3) (n : nat)
    (d : Vector3) :
  (n < List.length points)%nat ->
  (forall k, (k < n)%nat ->
             0 < distanceToSquared (nth k points d) (nth n points d)) ->
  findSplitIndex points (nth n points d) = n.
Proof.
  intros Hn Hbefore. unfold findSplitIndex.
  set (pos := nth n points d) in *.
  rewrite (split_nth points n d Hn).
  fold pos.
  rewrite splitLoop_first_hit.
  - rewrite length_firstn. lia.
  - apply distance_self.
  - apply Forall_forall. intros pt Hin.
    apply (In_nth _ _ d) in Hin. destruct Hin as [k [Hk Hpt]].
    rewrite length_firstn in Hk.
    rewrite nth_firstn in Hpt.
    destruct (k <? n)%nat eqn:Hkn; [|apply Nat.ltb_ge in Hkn; lia].
    subst pt. apply Hbefore. now apply Nat.ltb_lt.
  - exact I.
Qed.

(** *** Sequences that move away from their first sample *)

(** Each sample is strictly farther from the first sample than the samples
    before it. *)
Definition distancing (points : list Vector3) (d : Vector3) : Prop :=
  forall i j, (i < j < List.length points)%nat ->
    distanceToSquared (nth i points d) (nth 0 points d)
    < distanceToSquared (nth j points d) (nth 0 points d).

Lemma square_sum_zero (a b c : Q) :
  a * a + b * b + c * c <= 0 -> a == 0 /\ b == 0 /\ c == 0.
Proof.
  intro H.
  assert (Ha : a * a == 0) by nra.
  assert (Hb : b * b == 0) by nra.
  assert (Hc : c * c == 0) by nra.
  repeat split.
  - destruct (Qmult_integral _ _ Ha); assumption.
  - destruct (Qmult_integral _ _ Hb); assumption.
  - destruct (Qmult_integral _ _ Hc); assumption.
Qed.

Lemma distance_zero_same (v w u : Vector3) :
  distanceToSquared v w <= 0 ->
  distanceToSquared v u == distanceToSquared w u.
Proof.
  unfold distanceToSquared. cbv zeta. intro H.
  apply square_sum_zero in H. destruct H as [Hx [Hy Hz]].
  assert (Ex : x v == x w) by lra.
  assert (Ey : y v == y w) by lra.
  assert (Ez : z v == z w) by lra.
  rewrite Ex, Ey, Ez. reflexivity.
Qed.

(** In a distancing sequence no two samples sit at the same place. *)
Lemma distancing_separates (points : list Vector3) (d : Vector3) :
  distancing points d ->
  forall k n, (k < n < List.length points)%nat ->
    0 < distanceToSquared (nth k points d) (nth n points d).
Proof.
  intros Hd k n Hkn.
  destruct (Qlt_le_dec 0 (distanceToSquared (nth k points d)
                                            (nth n points d)))
    as [Hpos|Hzero]; [exact Hpos|].
  exfalso.
  pose proof (Hd k n Hkn) as Hlt.
  rewrite (distance_zero_same _ _ (nth 0 points d) Hzero) in Hlt.
  lra.
Qed.

Lemma linePath_nth (k : nat) :
  (k < 21)%nat -> nth k linePath (onLine 0) = onLine k.
Proof.
  intro Hk. unfold linePath. rewrite map_nth, seq_nth by exact Hk.
  reflexivity.
Qed.

Lemma linePath_distancing : distancing linePath (onLine 0).
Proof.
  intros i j [Hij Hj]. change (List.length linePath) with 21%nat in Hj.
  rewrite !linePath_nth by lia.
  unfold distanceToSquared, onLine. cbn [x y z].
  assert (H : inject_Z (Z.of_nat i) < inject_Z (Z.of_nat j))
    by (rewrite <- Zlt_Qlt; lia).
  assert (Hi : 0 <= inject_Z (Z.of_nat i))
    by (change 0 with (inject_Z 0); rewrite <- Zle_Qle; lia).
  change (inject_Z (Z.of_nat 0)) with 0.
  nra.
Qed.

(** C2, as the code has it.  Take a path with more than ten samples in which
    no sample before index 10 sits where sample 10 does (as in every sequence
    that moves monotonically away).  Split at the live position equal to
    sample 10: the split index is 10; the past segment is samples 0..9, of
    length 10; the future segment is the samples from index 10 on, and begins
    with sample 10. *)
Theorem path_split_at_sample_ten :
  forall (points : list Vector3) (d : Vector3),
    (10 < List.length points)%nat ->
    (forall k, (k < 10)%nat ->
               0 < distanceToSquared (nth k points d) (nth 10 points d)) ->
    let posVec := nth 10 points d in
    findSplitIndex points posVec = 10%nat
    /\ atlasPathPast points posVec = firstn 10 points
    /\ List.length (atlasPathPast points posVec) = 10%nat
    /\ atlasPathFuture points posVec = skipn 10 points
    /\ nth 0 (atlasPathFuture points posVec) d = nth 10 points d.
Proof.
  intros points d Hlen Hbefore posVec. subst posVec.
  pose proof (findSplitIndex_first_hit points 10 d Hlen Hbefore) as Hidx.
  unfold atlasPathPast, atlasPathFuture. rewrite Hidx.
  change (Nat.max 1 10) with 10%nat.
  split; [reflexivity|]. split; [reflexivity|].
  split; [rewrite length_firstn; lia|].
  split; [reflexivity|].
  rewrite nth_skipn. reflexivity.
Qed.

Lemma path_split_at_sample_ten_witness :
  let posVec := nth 10 linePath (onLine 0) in
  findSplitIndex linePath posVec = 10%nat
  /\ atlasPathPast linePath posVec = firstn 10 linePath
  /\ List.length (atlasPathPast linePath posVec) = 10%nat
  /\ atlasPathFuture linePath posVec = skipn 10 linePath
  /\ nth 0 (atlasPathFuture linePath posVec) (onLine 0)
     = nth 10 linePath (onLine 0).
Proof.
  apply (path_split_at_sample_ten linePath (onLine 0)).
  - cbn. lia.
  - intros k Hk.
    apply (distancing_separates linePath (onLine 0) linePath_distancing).
    cbn. lia.
Defined.

(** C2 as stated fails: on the 21 samples [(k, 0, 0)], which move steadily
    away from the first one, with the live position at sample 10, the past
    segment has 10 points, not 11; the future segment begins at sample 10. *)
Lemma path_split_counterexample :
  distancing linePath (onLine 0)
  /\ nth 10 linePath (onLine 0) = onLine 10
  /\ findSplitIndex linePath (onLine 10) = 10%nat
  /\ List.length (atlasPathPast linePath (onLine 10)) = 10%nat
  /\ List.length (atlasPathPast linePath (onLine 10)) <> 11%nat
  /\ nth 0 (atlasPathFuture linePath (onLine 10)) (onLine 0) = onLine 10.
Proof.
  split; [exact linePath_distancing|].
  repeat split. cbn. discriminate.
Qed.

End PathSplit.

(** ** The mission provider: what is dispatched, and runs of the reducer *)

Module MissionProvider.

Import MissionStore.

Open Scope string_scope.
Open Scope Z_scope.

(** [state.missionData?.earthPosition || [30, 0, 0]] *)
Definition defaultEarthPosition : Triple := (30%Q, 0%Q, 0%Q).

(** The payload [updateAtlasPosition] dispatches. *)
Definition atlasPositionPayload (state : MissionContextState)
    (position : Triple) : option MissionData :=
  Some (mkMissionData
          (currentTime (simulationState state))
          position
          match missionData state with
          | Some md => earthPosition md
          | None => defaultEarthPosition
          end).

(** Everything that makes the provider dispatch: the six functions of the
    context value, a firing of the one-second interval, and the trajectory
    effect (whose points are those of [calculateInterceptTrajectory], given
    here as an input). *)
Inductive ProviderEvent :=
| CallSetMissionConfig (config : MissionConfig)
| CallStartSimulation
| CallPauseSimulation
| CallResetSimulation
| CallUpdateMissionStatus (status : MissionStatus)
| CallUpdateAtlasPosition (position : Triple)
| IntervalFires (te : TickEnv)
| TrajectoryEffect (points : list Triple).

Definition dispatched (ev : ProviderEvent) (state : MissionContextState)
    : option MissionAction :=
  match ev with
  | CallSetMissionConfig config => Some (SET_MISSION_CONFIG config)
  | CallStartSimulation => Some START_SIMULATION
  | CallPauseSimulation => Some PAUSE_SIMULATION
  | CallResetSimulation => Some RESET_SIMULATION
  | CallUpdateMissionStatus status => Some (UPDATE_MISSION_STATUS status)
  | CallUpdateAtlasPosition position =>
      Some (UPDATE_MISSION_DATA (atlasPositionPayload state position))
  | IntervalFires te =>
      if isRunning (simulationState state)
      then intervalCallback te state
      else None
  | TrajectoryEffect points =>
      match missionData state with
      | Some _ => Some (SET_INTERCEPTOR_TRAJECTORY points)
      | None => None
      end
  end.

Section Runs.

Variable Date_getTime : string -> option Z.

Definition providerStep (state : MissionContextState)
    (step : Env * ProviderEvent) : MissionContextState :=
  match dispatched (snd step) state with
  | Some action => missionReducer Date_getTime (fst step) state action
  | None => state
  end.

(** The state after a sequence of provider events, each with what the
    reducer reads from its environment while handling it. *)
Definition providerRun (state : MissionContextState)
    (steps : list (Env * ProviderEvent)) : MissionContextState :=
  fold_left providerStep steps state.

(** The state after a sequence of actions given to the reducer directly. *)
Definition reducerRun (state : MissionContextState)
    (steps : list (Env * MissionAction)) : MissionContextState :=
  fold_left (fun s step => missionReducer Date_getTime (fst step) s (snd step))
            steps state.

End Runs.

Definition isTimeUpdate (a : MissionAction) : bool :=
  match a with
  | UPDATE_SIMULATION_TIME _ => true
  | _ => false
  end.

Definition restartsClock (a : MissionAction) : bool :=
  match a with
  | START_SIMULATION | RESET_SIMULATION => true
  | _ => false
  end.

Definition isInterval (ev : ProviderEvent) : bool :=
  match ev with
  | IntervalFires _ => true
  | _ => false
  end.

(** Whether a provider event sets the running flag, and to what. *)
Definition lifecycle (ev : ProviderEvent) : option bool :=
  match ev with
  | CallStartSimulation => Some true
  | CallPauseSimulation | CallResetSimulation => Some false
  | _ => None
  end.

Definition isSetConfig (ev : ProviderEvent) : bool :=
  match ev with
  | CallSetMissionConfig _ => true
  | _ => false
  end.

(** Two decimal digits. *)
Definition digit (d : Z) : ascii := ascii_of_nat (48 + Z.to_nat d).

Definition two_digits (n : Z) : string :=
  String (digit (n / 10)) (String (digit (n mod 10)) EmptyString).

(** *** One step *)

Lemma interval_step_simulationState (D : string -> option Z)
    (state : MissionContextState) (env : Env) (te : TickEnv) :
  simulationState (providerStep D state (env, IntervalFires te))
  = simulationState state.
Proof.
  unfold providerStep, dispatched, intervalCallback. cbn [snd fst].
  destruct (isRunning (simulationState state)); [|reflexivity].
  destruct (missionStatus state); reflexivity.
Qed.

Lemma step_elapsed (D : string -> option Z) (state : MissionContextState)
    (step : Env * ProviderEvent) :
  elapsedTime (simulationState (providerStep D state step))
  = elapsedTime (simulationState state)
  \/ elapsedTime (simulationState (providerStep D state step)) = 0.
Proof.
  destruct step as [env ev]. destruct ev;
    try (left; reflexivity); try (right; reflexivity).
  - left. now rewrite interval_step_simulationState.
  - left. unfold providerStep, dispatched. cbn [snd fst].
    destruct (missionData state); reflexivity.
Qed.

(** X1.  Nothing the provider dispatches advances the elapsed-seconds
    counter: from a state where it is zero (the initial state), it is zero
    after every sequence of provider events, interval firings included. *)
Theorem provider_never_advances_elapsed :
  forall (D : string -> option Z) (steps : list (Env * ProviderEvent))
         (state : MissionContextState),
    elapsedTime (simulationState state) = 0 ->
    elapsedTime (simulationState (providerRun D state steps)) = 0.
Proof.
  intros D steps. unfold providerRun.
  induction steps as [|step steps IH]; intros state H0; [exact H0|].
  cbn [fold_left]. apply IH.
  destruct (step_elapsed D state step) as [Hsame|Hzero]; congruence.
Qed.

Definition twoTicksAfterStart : list (Env * ProviderEvent) :=
  [(env0, CallStartSimulation);
   (env0, IntervalFires tick0);
   (env0, IntervalFires tick0)].

Lemma provider_never_advances_elapsed_witness :
  elapsedTime (simulationState
                 (providerRun dayOne initialState twoTicksAfterStart)) = 0.
Proof.
  apply (provider_never_advances_elapsed dayOne twoTicksAfterStart
           initialState).
  reflexivity.
Defined.

(** *** The elapsed counter under the reducer *)

Definition countTimeUpdates (steps : list (Env * MissionAction)) : Z :=
  Z.of_nat (List.length (filter (fun st => isTimeUpdate (snd st)) steps)).

Lemma reducerRun_app (D : string -> option Z) (state : MissionContextState)
    (pre post : list (Env * MissionAction)) :
  reducerRun D state (pre ++ post)
  = reducerRun D (reducerRun D state pre) post.
Proof. unfold reducerRun. apply fold_left_app. Qed.

Lemma elapsed_without_restart (D : string -> option Z)
    (post : list (Env * MissionAction)) :
  forall state,
    (forall st, In st post -> restartsClock (snd st) = false) ->
    elapsedTime (simulationState (reducerRun D state post))
    = elapsedTime (simulationState state) + countTimeUpdates post.
Proof.
  unfold reducerRun, countTimeUpdates.
  induction post as [|[env a] post IH]; intros state Hno.
  - cbn. lia.
  - cbn [fold_left filter snd fst].
    rewrite IH by (intros st Hin; apply Hno; now right).
    pose proof (Hno (env, a) (or_introl eq_refl)) as Ha. cbn [snd] in Ha.
    destruct a; try discriminate; cbn [isTimeUpdate List.length];
      cbn; lia.
Qed.

(** Under the reducer the elapsed-seconds counter is the number of
    [UPDATE_SIMULATION_TIME] actions since the last start or reset; pausing
    and every other action leave it alone. *)
Theorem elapsed_counts_time_updates :
  forall (D : string -> option Z) (state : MissionContextState)
         (pre post : list (Env * MissionAction)) (env : Env)
         (restart : MissionAction),
    restartsClock restart = true ->
    (forall st, In st post -> restartsClock (snd st) = false) ->
    elapsedTime
      (simulationState
         (reducerRun D state (pre ++ (env, restart) :: post)))
    = countTimeUpdates post.
Proof.
  intros D state pre post env restart Hr Hno.
  rewrite reducerRun_app.
  change ((env, restart) :: post) with ([(env, restart)] ++ post)%list.
  rewrite reducerRun_app, elapsed_without_restart by exact Hno.
  destruct restart; try discriminate; cbn; lia.
Qed.

Definition pausedBetweenTicks : list (Env * MissionAction) :=
  [(env0, UPDATE_SIMULATION_TIME 1000); (env0, PAUSE_SIMULATION);
   (env0, UPDATE_SIMULATION_TIME 2000)].

Lemma elapsed_counts_time_updates_witness :
  elapsedTime
    (simulationState
       (reducerRun dayOne initialState
          ([(env0, UPDATE_SIMULATION_TIME 5)]
           ++ (env0, START_SIMULATION) :: pausedBetweenTicks)))
  = countTimeUpdates pausedBetweenTicks.
Proof.
  apply (elapsed_counts_time_updates dayOne initialState
           [(env0, UPDATE_SIMULATION_TIME 5)] pausedBetweenTicks env0
           START_SIMULATION).
  - reflexivity.
  - intros st Hin. cbn in Hin.
    destruct Hin as [<-|[<-|[<-|[]]]]; reflexivity.
Defined.

(** *** The running flag, the configuration and the mission data *)

Lemma providerRun_app (D : string -> option Z) (state : MissionContextState)
    (pre post : list (Env * ProviderEvent)) :
  providerRun D state (pre ++ post)
  = providerRun D (providerRun D state pre) post.
Proof. unfold providerRun. apply fold_left_app. Qed.

Lemma step_keeps_running (D : string -> option Z)
    (state : MissionContextState) (step : Env * ProviderEvent) :
  lifecycle (snd step) = None ->
  isRunning (simulationState (providerStep D state step))
  = isRunning (simulationState state).
Proof.
  destruct step as [env ev]. cbn [snd]. intro H.
  destruct ev; try discriminate; try reflexivity.
  - now rewrite interval_step_simulationState.
  - unfold providerStep, dispatched. cbn [snd fst].
    destruct (missionData state); reflexivity.
Qed.

Lemma run_keeps_running (D : string -> option Z)
    (post : list (Env * ProviderEvent)) :
  forall state,
    (forall st, In st post -> lifecycle (snd st) = None) ->
    isRunning (simulationState (providerRun D state post))
    = isRunning (simulationState state).
Proof.
  unfold providerRun.
  induction post as [|step post IH]; intros state Hno; [reflexivity|].
  cbn [fold_left]. rewrite IH by (intros st Hin; apply Hno; now right).
  apply step_keeps_running. apply Hno. now left.
Qed.

(** X2.  The running flag is decided by the last lifecycle call: after a run
    of provider events it is [true] when the last of the start, pause and
    reset calls was a start and [false] when it was a pause or a reset,
    whatever status updates, interval firings, configuration or data changes
    came after it. *)
Theorem running_follows_last_lifecycle_call :
  forall (D : string -> option Z) (state : MissionContextState)
         (pre post : list (Env * ProviderEvent)) (env : Env)
         (ev : ProviderEvent) (b : bool),
    lifecycle ev = Some b ->
    (forall st, In st post -> lifecycle (snd st) = None) ->
    isRunning
      (simulationState (providerRun D state (pre ++ (env, ev) :: post)))
    = b.
Proof.
  intros D state pre post env ev b Hev Hno.
  rewrite providerRun_app.
  change ((env, ev) :: post) with ([(env, ev)] ++ post)%list.
  rewrite providerRun_app, run_keeps_running by exact Hno.
  destruct ev; try discriminate; injection Hev as <-; reflexivity.
Qed.

Lemma running_follows_last_lifecycle_call_witness :
  isRunning
    (simulationState
       (providerRun dayOne initialState
          ([(env0, CallStartSimulation)]
           ++ (env0, CallPauseSimulation)
              :: [(env0, IntervalFires tick0);
                  (env0, CallUpdateMissionStatus cruisingStatus)])))
  = false.
Proof.
  apply (running_follows_last_lifecycle_call dayOne initialState
           [(env0, CallStartSimulation)]
           [(env0, IntervalFires tick0);
            (env0, CallUpdateMissionStatus cruisingStatus)]
           env0 CallPauseSimulation false).
  - reflexivity.
  - intros st Hin. cbn in Hin. destruct Hin as [<-|[<-|[]]]; reflexivity.
Defined.

Lemma step_keeps_config (D : string -> option Z)
    (state : MissionContextState) (step : Env * ProviderEvent) :
  isSetConfig (snd step) = false ->
  missionConfig (providerStep D state step) = missionConfig state.
Proof.
  destruct step as [env ev]. cbn [snd]. intro H.
  destruct ev; try discriminate; try reflexivity;
    unfold providerStep, dispatched, intervalCallback; cbn [snd fst].
  - destruct (isRunning (simulationState state)); [|reflexivity].
    destruct (missionStatus state); reflexivity.
  - destruct (missionData state); reflexivity.
Qed.

Lemma run_keeps_config (D : string -> option Z)
    (post : list (Env * ProviderEvent)) :
  forall state,
    (forall st, In st post -> isSetConfig (snd st) = false) ->
    missionConfig (providerRun D state post) = missionConfig state.
Proof.
  unfold providerRun.
  induction post as [|step post IH]; intros state Hno; [reflexivity|].
  cbn [fold_left]. rewrite IH by (intros st Hin; apply Hno; now right).
  apply step_keeps_config. apply Hno. now left.
Qed.

(** X3.  The configuration is whatever [setMissionConfig] was last called
    with: no validation changes it, calling twice with the same value is
    calling once, and starting, pausing, resetting, status updates, interval
    firings and data changes all leave it as it is. *)
Theorem config_is_last_set_value :
  forall (D : string -> option Z) (state : MissionContextState)
         (pre post : list (Env * ProviderEvent)) (env : Env)
         (config : MissionConfig),
    (forall st, In st post -> isSetConfig (snd st) = false) ->
    missionConfig
      (providerRun D state
         (pre ++ (env, CallSetMissionConfig config) :: post))
    = config.
Proof.
  intros D state pre post env config Hno.
  rewrite providerRun_app.
  change ((env, CallSetMissionConfig config) :: post)
    with ([(env, CallSetMissionConfig config)] ++ post)%list.
  rewrite providerRun_app, run_keeps_config by exact Hno.
  reflexivity.
Qed.

Definition ionConfig : MissionConfig :=
  mkMissionConfig "2025-12-01T00:00" ion [camera; probe] (Some bi_elliptic)
                  None None.

Lemma config_is_last_set_value_witness :
  missionConfig
    (providerRun dayOne initialState
       ([(env0, CallSetMissionConfig defaultConfig)]
        ++ (env0, CallSetMissionConfig ionConfig)
           :: [(env0, CallStartSimulation); (env0, CallResetSimulation)]))
  = ionConfig.
Proof.
  apply (config_is_last_set_value dayOne initialState
           [(env0, CallSetMissionConfig defaultConfig)]
           [(env0, CallStartSimulation); (env0, CallResetSimulation)]
           env0 ionConfig).
  intros st Hin. cbn in Hin. destruct Hin as [<-|[<-|[]]]; reflexivity.
Defined.

(** The Earth position of the mission data, when there is mission data, is
    the default the provider fills in. *)
Definition earthAtDefault (state : MissionContextState) : Prop :=
  match missionData state with
  | Some md => earthPosition md = defaultEarthPosition
  | None => True
  end.

Lemma step_keeps_earth (D : string -> option Z)
    (state : MissionContextState) (step : Env * ProviderEvent) :
  earthAtDefault state -> earthAtDefault (providerStep D state step).
Proof.
  destruct step as [env ev]. unfold earthAtDefault. intro H.
  destruct ev; try exact H;
    unfold providerStep, dispatched, intervalCallback; cbn [snd fst].
  - cbn. destruct (missionData state); [exact H|reflexivity].
  - destruct (isRunning (simulationState state)); [|exact H].
    destruct (missionStatus state); exact H.
  - destruct (missionData state) eqn:E; [|now rewrite E].
    cbn [missionReducer missionData]. now rewrite E.
Qed.

(** X4.  Through the provider the Earth position of the mission data never
    becomes anything but [(30, 0, 0)]: [updateAtlasPosition] is the only
    writer of the mission data, and it keeps the Earth position it finds or
    fills in the default.  The interceptor trajectory is therefore always
    computed from that fixed start. *)
Theorem earth_position_stays_default :
  forall (D : string -> option Z) (steps : list (Env * ProviderEvent))
         (state : MissionContextState),
    missionData state = None ->
    match missionData (providerRun D state steps) with
    | Some md => earthPosition md = (30%Q, 0%Q, 0%Q)
    | None => True
    end.
Proof.
  intros D steps state Hnone.
  assert (H : earthAtDefault state)
    by (unfold earthAtDefault; now rewrite Hnone).
  clear Hnone. revert state H. unfold providerRun.
  induction steps as [|step steps IH]; intros state H; [exact H|].
  cbn [fold_left]. apply IH. now apply step_keeps_earth.
Qed.

Lemma earth_position_stays_default_witness :
  match missionData
          (providerRun dayOne initialState
             [(env0, CallUpdateAtlasPosition (1%Q, 2%Q, 3%Q));
              (env0, CallUpdateAtlasPosition (4%Q, 5%Q, 6%Q))]) with
  | Some md => earthPosition md = (30%Q, 0%Q, 0%Q)
  | None => True
  end.
Proof.
  apply (earth_position_stays_default dayOne
           [(env0, CallUpdateAtlasPosition (1%Q, 2%Q, 3%Q));
            (env0, CallUpdateAtlasPosition (4%Q, 5%Q, 6%Q))]
           initialState).
  reflexivity.
Defined.

(** *** What the interval does and does not touch *)

(** Two optional statuses agree on phase, time to intercept and success
    probability, and are present together. *)
Definition sameMission (a b : option MissionStatus) : Prop :=
  match a, b with
  | Some st, Some st' =>
      phase st' = phase st
      /\ timeToIntercept st' = timeToIntercept st
      /\ successProbability st' = successProbability st
  | None, None => True
  | _, _ => False
  end.

Lemma sameMission_refl (a : option MissionStatus) : sameMission a a.
Proof. destruct a; cbn; auto. Qed.

Lemma sameMission_trans (a b c : option MissionStatus) :
  sameMission a b -> sameMission b c -> sameMission a c.
Proof.
  destruct a, b, c; cbn; try tauto.
  intros [H1 [H2 H3]] [H4 [H5 H6]]. repeat split; congruence.
Qed.

Lemma interval_step_sameMission (D : string -> option Z)
    (state : MissionContextState) (env : Env) (te : TickEnv) :
  sameMission (missionStatus state)
    (missionStatus (providerStep D state (env, IntervalFires te))).
Proof.
  unfold providerStep, dispatched, intervalCallback. cbn [snd fst].
  destruct (isRunning (simulationState state));
    [|apply sameMission_refl].
  destruct (missionStatus state) as [st|] eqn:E.
  - cbn. repeat split.
  - rewrite E. exact I.
Qed.

(** X5.  The one-second interval only moves telemetry.  After any number of
    firings, the mission phase, the time to intercept and the success
    probability are what they were (so a mission started in phase LAUNCH
    stays in LAUNCH), a missing status stays missing, and the simulation
    state (running flag, clock, elapsed counter) and the configuration are
    untouched. *)
Theorem interval_keeps_phase_and_score :
  forall (D : string -> option Z) (ticks : list (Env * ProviderEvent))
         (state : MissionContextState),
    (forall st, In st ticks -> isInterval (snd st) = true) ->
    sameMission (missionStatus state)
                (missionStatus (providerRun D state ticks))
    /\ simulationState (providerRun D state ticks) = simulationState state
    /\ missionConfig (providerRun D state ticks) = missionConfig state.
Proof.
  intros D ticks. unfold providerRun.
  induction ticks as [|[env ev] ticks IH]; intros state Hall.
  - cbn. split; [apply sameMission_refl|]. split; reflexivity.
  - cbn [fold_left].
    pose proof (Hall (env, ev) (or_introl eq_refl)) as Hev. cbn [snd] in Hev.
    destruct ev; try discriminate.
    destruct (IH (providerStep D state (env, IntervalFires te))
                (fun st Hin => Hall st (or_intror Hin)))
      as [Hm [Hs Hc]].
    split; [|split].
    + eapply sameMission_trans; [apply interval_step_sameMission|exact Hm].
    + rewrite Hs. apply interval_step_simulationState.
    + rewrite Hc. now apply step_keeps_config.
Qed.

Lemma interval_keeps_phase_and_score_witness :
  sameMission (missionStatus cruisingState)
              (missionStatus
                 (providerRun dayOne cruisingState
                    [(env0, IntervalFires tick0);
                     (env0, IntervalFires tick0)]))
  /\ simulationState
       (providerRun dayOne cruisingState
          [(env0, IntervalFires tick0); (env0, IntervalFires tick0)])
     = simulationState cruisingState
  /\ missionConfig
       (providerRun dayOne cruisingState
          [(env0, IntervalFires tick0); (env0, IntervalFires tick0)])
     = missionConfig cruisingState.
Proof.
  apply (interval_keeps_phase_and_score dayOne
           [(env0, IntervalFires tick0); (env0, IntervalFires tick0)]
           cruisingState).
  intros st Hin. cbn in Hin. destruct Hin as [<-|[<-|[]]]; reflexivity.
Defined.

Lemma interval_step_idle (D : string -> option Z)
    (state : MissionContextState) (env : Env) (te : TickEnv) :
  isRunning (simulationState state) = false ->
  providerStep D state (env, IntervalFires te) = state.
Proof.
  intro H. unfold providerStep, dispatched. cbn [snd fst].
  now rewrite H.
Qed.

Lemma intervals_idle (D : string -> option Z)
    (ticks : list (Env * ProviderEvent)) :
  forall state,
    isRunning (simulationState state) = false ->
    (forall st, In st ticks -> isInterval (snd st) = true) ->
    providerRun D state ticks = state.
Proof.
  unfold providerRun.
  induction ticks as [|[env ev] ticks IH]; intros state Hoff Hall;
    [reflexivity|].
  cbn [fold_left].
  pose proof (Hall (env, ev) (or_introl eq_refl)) as Hev. cbn [snd] in Hev.
  destruct ev; try discriminate.
  rewrite interval_step_idle by exact Hoff.
  apply IH; [exact Hoff|]. intros st Hin. apply Hall. now right.
Qed.

(** X6.  Pausing or resetting stops the telemetry: after a pause or a reset,
    interval firings change nothing at all, so velocity, distance and fuel
    hold the values they had when the simulation was paused. *)
Theorem telemetry_frozen_after_pause_or_reset :
  forall (D : string -> option Z) (state : MissionContextState)
         (env : Env) (ev : ProviderEvent)
         (ticks : list (Env * ProviderEvent)),
    lifecycle ev = Some false ->
    (forall st, In st ticks -> isInterval (snd st) = true) ->
    providerRun D state ((env, ev) :: ticks)
    = providerStep D state (env, ev).
Proof.
  intros D state env ev ticks Hev Hall.
  change ((env, ev) :: ticks) with ([(env, ev)] ++ ticks)%list.
  rewrite providerRun_app. apply intervals_idle; [|exact Hall].
  destruct ev; try discriminate; reflexivity.
Qed.

Lemma telemetry_frozen_after_pause_or_reset_witness :
  providerRun dayOne cruisingState
    ((env0, CallPauseSimulation)
     :: [(env0, IntervalFires tick0); (env0, IntervalFires tick0)])
  = providerStep dayOne cruisingState (env0, CallPauseSimulation).
Proof.
  apply (telemetry_frozen_after_pause_or_reset dayOne cruisingState env0
           CallPauseSimulation
           [(env0, IntervalFires tick0); (env0, IntervalFires tick0)]).
  - reflexivity.
  - intros st Hin. cbn in Hin. destruct Hin as [<-|[<-|[]]]; reflexivity.
Defined.

(** *** Start: telemetry bands and the order of scores *)

(** The three draws of the start branch,
    [Math.floor(Math.random() * scale + base)], with the rounding of the
    arithmetic written out: the product is rounded, then the sum, and
    [Math.floor] of the rounded sum is exact.  [round] takes the exact
    result of an operation to the number the operation returns. *)
Section StartTelemetry.

Variable round : Q -> Q.

Definition telemetryDraw (rnd scale base : Q) : Z :=
  Qfloor (round (round (rnd * scale) + base))%Q.

(** [timeToIntercept] (before [formatTime]), [distance] and [velocity]. *)
Definition startTelemetry (env : Env) : Z * Z * Z :=
  (telemetryDraw (rnd1 env) 3600 1800,
   telemetryDraw (rnd2 env) 50000000 100000000,
   telemetryDraw (rnd3 env) 5000 15000).

End StartTelemetry.

(** With nothing rounded, the draws are the ones [missionReducer] stores. *)
Lemma start_status_telemetry (D : string -> option Z) (env : Env)
    (state : MissionContextState) :
  exists st,
    missionStatus (missionReducer D env state START_SIMULATION) = Some st
    /\ timeToIntercept st
       = Some (formatTime (fst (fst (startTelemetry (fun x => x) env))))
    /\ distanceToTarget st
       = Some (JsNum.of_Z (snd (fst (startTelemetry (fun x => x) env))))
    /\ velocity st
       = Some (JsNum.of_Z (snd (startTelemetry (fun x => x) env))).
Proof.
  cbn [missionReducer missionStatus]. eexists.
  split; [reflexivity|]. repeat split.
Qed.

Lemma draw_in_closed_band (round : Q -> Q) (r : Q) (scale base : Z) :
  (forall x y : Q, (x <= y)%Q -> (round x <= round y)%Q) ->
  (forall n : Z, Z.abs n <= 2 ^ 53 -> (round (inject_Z n) == inject_Z n)%Q) ->
  (0 <= r)%Q -> (r < 1)%Q ->
  0 <= scale -> 0 <= base -> base + scale <= 2 ^ 53 ->
  base <= telemetryDraw round r (inject_Z scale) (inject_Z base)
       <= base + scale.
Proof.
  intros Hmono Hexact H0 H1 Hs Hb Htop.
  assert (Hsq : (0 <= inject_Z scale)%Q)
    by (change 0%Q with (inject_Z 0); now rewrite <- Zle_Qle).
  assert (Hprod : (0 <= r * inject_Z scale <= inject_Z scale)%Q).
  { split; [now apply Qmult_le_0_compat|].
    assert ((r * inject_Z scale <= 1 * inject_Z scale)%Q)
      by (apply Qmult_le_compat_r; [now apply Qlt_le_weak|exact Hsq]).
    lra. }
  assert (Hrprod : (0 <= round (r * inject_Z scale) <= inject_Z scale)%Q).
  { split.
    - rewrite <- (Hexact 0) by (cbn; lia). apply Hmono, Hprod.
    - rewrite <- (Hexact scale) at 2 by lia. apply Hmono, Hprod. }
  assert (Hsum : (inject_Z base
                  <= round (round (r * inject_Z scale) + inject_Z base)
                  <= inject_Z (base + scale))%Q).
  { split.
    - rewrite <- (Hexact base) at 1 by lia. apply Hmono. lra.
    - rewrite <- (Hexact (base + scale)) by lia. apply Hmono.
      rewrite inject_Z_plus. lra. }
  unfold telemetryDraw. split.
  - rewrite <- (Qfloor_Z base) at 1. apply Qfloor_resp_le, Hsum.
  - rewrite <- (Qfloor_Z (base + scale)). apply Qfloor_resp_le, Hsum.
Qed.

(** In binary64 the top of each band is reached: with the largest number
    below 1 for [Math.random()], each rounded sum is the top itself. *)
Lemma start_telemetry_tops_reached_f64 :
  PrimFloat.ltb 0x1.fffffffffffffp-1 1 = true
  /\ PrimFloat.add (PrimFloat.mul 0x1.fffffffffffffp-1 3600) 1800
     = 5400%float
  /\ PrimFloat.add (PrimFloat.mul 0x1.fffffffffffffp-1 50000000) 100000000
     = 150000000%float
  /\ PrimFloat.add (PrimFloat.mul 0x1.fffffffffffffp-1 5000) 15000
     = 20000%float.
Proof. repeat split; vm_compute; reflexivity. Qed.

(** X7.  The telemetry drawn by [Start].  Whatever the rounding of the
    arithmetic, as long as it keeps the order and leaves whole numbers up to
    2^53 as they are (as rounding to the nearest binary64 number does, and
    as exact arithmetic does), and with every [Math.random()] in [0, 1): the
    time to intercept is 1800..5400 seconds (30 to 90 minutes), the distance
    100,000,000..150,000,000 km and the velocity 15,000..20,000, all whole
    numbers, the ends included.  The upper ends are included because the
    rounded sum can reach them. *)
Theorem start_telemetry_bands :
  forall (round : Q -> Q) (env : Env),
    (forall x y : Q, (x <= y)%Q -> (round x <= round y)%Q) ->
    (forall n : Z, Z.abs n <= 2 ^ 53 ->
                   (round (inject_Z n) == inject_Z n)%Q) ->
    (0 <= rnd1 env)%Q -> (rnd1 env < 1)%Q ->
    (0 <= rnd2 env)%Q -> (rnd2 env < 1)%Q ->
    (0 <= rnd3 env)%Q -> (rnd3 env < 1)%Q ->
    exists t d v,
      startTelemetry round env = (t, d, v)
      /\ 1800 <= t <= 5400
      /\ 100000000 <= d <= 150000000
      /\ 15000 <= v <= 20000.
Proof.
  intros round env Hmono Hexact H1 H1' H2 H2' H3 H3'.
  unfold startTelemetry.
  eexists. eexists. eexists.
  split; [reflexivity|]. split.
  { apply (draw_in_closed_band round (rnd1 env) 3600 1800);
      try assumption; lia. }
  split.
  { apply (draw_in_closed_band round (rnd2 env) 50000000 100000000);
      try assumption; lia. }
  apply (draw_in_closed_band round (rnd3 env) 5000 15000);
    try assumption; lia.
Qed.

(** A rounding that does round, for an example: to the nearest whole
    number.  Draws just below 1 then reach the top of every band. *)
Definition nearestWhole (x : Q) : Q := inject_Z (Qfloor (x + (1 # 2))%Q).

Definition nearOne : Q := (999999999999 # 1000000000000)%Q.

Definition envNearOne : Env := mkEnv 0 0 nearOne nearOne nearOne.

Lemma nearestWhole_monotone (x y : Q) :
  (x <= y)%Q -> (nearestWhole x <= nearestWhole y)%Q.
Proof.
  intro H. unfold nearestWhole. rewrite <- Zle_Qle.
  apply Qfloor_resp_le. lra.
Qed.

Lemma nearestWhole_whole (n : Z) : (nearestWhole (inject_Z n) == inject_Z n)%Q.
Proof.
  unfold nearestWhole.
  assert (Qfloor (inject_Z n + (1 # 2)) = n) as ->; [|reflexivity].
  unfold inject_Z. cbn. Z.div_mod_to_equations. lia.
Qed.

Lemma start_telemetry_top_reached_when_rounding :
  startTelemetry nearestWhole envNearOne = (5400, 150000000, 20000).
Proof. vm_compute. reflexivity. Qed.

Lemma start_telemetry_bands_witness :
  exists t d v,
    startTelemetry nearestWhole envNearOne = (t, d, v)
    /\ 1800 <= t <= 5400
    /\ 100000000 <= d <= 150000000
    /\ 15000 <= v <= 20000.
Proof.
  apply (start_telemetry_bands nearestWhole envNearOne).
  - exact nearestWhole_monotone.
  - intros n _. apply nearestWhole_whole.
  - discriminate.
  - reflexivity.
  - discriminate.
  - reflexivity.
  - discriminate.
  - reflexivity.
Defined.

Definition withPayload (cfg : MissionConfig) (items : list PayloadType)
    : MissionConfig :=
  mkMissionConfig (launchWindow cfg) (propulsionType cfg) items
                  (trajectoryType cfg) (fuelCapacity cfg)
                  (missionDuration cfg).

Definition withPropulsion (cfg : MissionConfig) (p : PropulsionType)
    : MissionConfig :=
  mkMissionConfig (launchWindow cfg) p (payload cfg)
                  (trajectoryType cfg) (fuelCapacity cfg)
                  (missionDuration cfg).

(** X8.  The start score always lies in 60..95; at equal launch window and
    clock, one more payload item never raises it, and a chemical drive never
    scores above an ion drive, nor an ion drive above a nuclear one. *)
Theorem start_score_band_and_order :
  forall (D : string -> option Z) (env : Env) (cfg : MissionConfig)
         (item : PayloadType),
    60 <= startSuccessRate D env cfg <= 95
    /\ startSuccessRate D env (withPayload cfg (item :: payload cfg))
       <= startSuccessRate D env cfg
    /\ startSuccessRate D env (withPropulsion cfg chemical)
       <= startSuccessRate D env (withPropulsion cfg ion)
    /\ startSuccessRate D env (withPropulsion cfg ion)
       <= startSuccessRate D env (withPropulsion cfg nuclear).
Proof.
  intros D env cfg item.
  rewrite !startSuccessRate_spec. unfold spec_startScore.
  cbn [withPayload withPropulsion launchWindow propulsionType payload
       spec_propulsionBonus List.length].
  set (t := spec_timingTerm (D (launchWindow cfg)) (now1 env)).
  set (b := spec_propulsionBonus (propulsionType cfg)).
  lia.
Qed.

(** *** One tick of telemetry *)

Lemma floored_decrement_fin (a dec : Q) :
  (0 <= a)%Q -> (0 <= dec)%Q ->
  exists a',
    JsNum.max (JsNum.of_Z 0)
      (JsNum.sub (JsNum.or_else (Some (JsNum.Fin a)) (JsNum.of_Z 0))
                 (JsNum.Fin dec))
    = JsNum.Fin a'
    /\ (0 <= a')%Q /\ (a' <= a)%Q /\ (a' == Qmax 0 (a - dec))%Q.
Proof.
  intros Ha Hd. unfold JsNum.or_else, JsNum.truthy.
  destruct (Qeq_bool a 0) eqn:E; cbn.
  - apply Qeq_bool_iff in E.
    eexists. split; [reflexivity|].
    change (inject_Z 0) with 0%Q.
    split; [apply Q.le_max_l|]. split.
    + apply Q.max_lub; lra.
    + rewrite E. reflexivity.
  - eexists. split; [reflexivity|].
    change (inject_Z 0) with 0%Q.
    split; [apply Q.le_max_l|]. split.
    + apply Q.max_lub; lra.
    + reflexivity.
Qed.

(** X9.  A tick never raises a counter.  From a status whose velocity,
    distance and fuel are finite and not negative, with [Math.random()] not
    negative, the updated velocity and distance are finite, not negative and
    at most what they were, and the updated fuel is exactly the old fuel less
    0.1, floored at zero (so a counter at zero stays at zero). *)
Theorem tick_counters_never_rise :
  forall (te : TickEnv) (state : MissionContextState) (st : MissionStatus)
         (v d f : Q),
    velocity st = Some (JsNum.Fin v) ->
    distanceToTarget st = Some (JsNum.Fin d) ->
    fuelRemaining st = Some (JsNum.Fin f) ->
    (0 <= v)%Q -> (0 <= d)%Q -> (0 <= f)%Q ->
    (0 <= tick_rnd1 te)%Q -> (0 <= tick_rnd2 te)%Q ->
    exists v' d' f',
      velocity (updatedStatus te state st) = Some (JsNum.Fin v')
      /\ distanceToTarget (updatedStatus te state st) = Some (JsNum.Fin d')
      /\ fuelRemaining (updatedStatus te state st) = Some (JsNum.Fin f')
      /\ (0 <= v' <= v)%Q /\ (0 <= d' <= d)%Q
      /\ (f' == Qmax 0 (f - 0.1))%Q.
Proof.
  intros te state st v d f Hv Hd Hf Hv0 Hd0 Hf0 Hr1 Hr2.
  cbn [updatedStatus velocity distanceToTarget fuelRemaining].
  rewrite Hv, Hd, Hf.
  destruct (floored_decrement_fin v (tick_rnd1 te * 100)) as [v' [Ev Bv]];
    [exact Hv0|apply Qmult_le_0_compat; [exact Hr1|discriminate]|].
  destruct (floored_decrement_fin d (tick_rnd2 te * 1000000))
    as [d' [Ed Bd]];
    [exact Hd0|apply Qmult_le_0_compat; [exact Hr2|discriminate]|].
  destruct (floored_decrement_fin f 0.1) as [f' [Ef Bf]];
    [exact Hf0|discriminate|].
  exists v', d', f'. rewrite Ev, Ed, Ef.
  repeat split; tauto.
Qed.

Lemma tick_counters_never_rise_witness :
  exists v' d' f',
    velocity (updatedStatus tick0 cruisingState cruisingStatus)
    = Some (JsNum.Fin v')
    /\ distanceToTarget (updatedStatus tick0 cruisingState cruisingStatus)
       = Some (JsNum.Fin d')
    /\ fuelRemaining (updatedStatus tick0 cruisingState cruisingStatus)
       = Some (JsNum.Fin f')
    /\ (0 <= v' <= 40)%Q /\ (0 <= d' <= 500000)%Q
    /\ (f' == Qmax 0 (0.05 - 0.1))%Q.
Proof.
  apply (tick_counters_never_rise tick0 cruisingState cruisingStatus
           40 500000 0.05);
    try reflexivity; discriminate.
Defined.

(** *** The shape of a formatted time *)

Lemma padded_two_digits_check :
  forallb (fun n => String.eqb
                      (JsText.padStart 2 "0" (JsText.toString (Z.of_nat n)))
                      (two_digits (Z.of_nat n)))
          (seq 0 100) = true.
Proof. vm_compute. reflexivity. Qed.

Lemma padded_two_digits (n : Z) :
  0 <= n < 100 ->
  JsText.padStart 2 "0" (JsText.toString n) = two_digits n.
Proof.
  intro Hn.
  pose proof padded_two_digits_check as H.
  rewrite forallb_forall in H.
  specialize (H (Z.to_nat n)).
  rewrite Z2Nat.id in H by lia.
  apply String.eqb_eq. apply H. apply in_seq. lia.
Qed.

(** X10.  For a time of 0 up to 99:59:59 (in seconds), [formatTime] is exactly
    eight characters, two decimal digits for each of hours, minutes and
    seconds with colons between, where the three fields recompose the input,
    minutes and seconds below 60. *)
Theorem formatTime_two_digit_fields :
  forall seconds : Z,
    0 <= seconds < 360000 ->
    exists h m sec,
      formatTime seconds
      = two_digits h ++ ":" ++ two_digits m ++ ":" ++ two_digits sec
      /\ seconds = 3600 * h + 60 * m + sec
      /\ 0 <= h < 100 /\ 0 <= m < 60 /\ 0 <= sec < 60
      /\ String.length (formatTime seconds) = 8%nat.
Proof.
  intros seconds Hs.
  exists (seconds / 3600), (Z.rem seconds 3600 / 60), (Z.rem seconds 60).
  rewrite !Z.rem_mod_nonneg by lia.
  assert (Hh : 0 <= seconds / 3600 < 100)
    by (split; [apply Z.div_pos; lia|apply Z.div_lt_upper_bound; lia]).
  pose proof (Z.mod_pos_bound seconds 3600 ltac:(lia)) as Hr.
  assert (Hm : 0 <= seconds mod 3600 / 60 < 60)
    by (split; [apply Z.div_pos; lia|apply Z.div_lt_upper_bound; lia]).
  pose proof (Z.mod_pos_bound seconds 60 ltac:(lia)) as Hsec.
  assert (Hfmt : formatTime seconds
                 = two_digits (seconds / 3600) ++ ":"
                   ++ two_digits (seconds mod 3600 / 60) ++ ":"
                   ++ two_digits (seconds mod 60)).
  { unfold formatTime. cbv zeta. rewrite !Z.rem_mod_nonneg by lia.
    rewrite !padded_two_digits by lia. reflexivity. }
  split; [exact Hfmt|]. split.
  - clear Hfmt Hh Hr Hm Hsec. Z.div_mod_to_equations. lia.
  - repeat split; try lia. rewrite Hfmt. reflexivity.
Qed.

Lemma formatTime_two_digit_fields_witness :
  exists h m sec,
    formatTime 3725
    = two_digits h ++ ":" ++ two_digits m ++ ":" ++ two_digits sec
    /\ 3725 = 3600 * h + 60 * m + sec
    /\ 0 <= h < 100 /\ 0 <= m < 60 /\ 0 <= sec < 60
    /\ String.length (formatTime 3725) = 8%nat.
Proof. apply (formatTime_two_digit_fields 3725). lia. Defined.

End MissionProvider.

(** ** Data access layer: what a caller sees in the common cases *)

Module ApiClientCases.

Import ApiClient.

Open Scope string_scope.
Open Scope Z_scope.

(** The total time a trace spends sleeping, and the number of fetches. *)
Fixpoint totalSleep (tr : list Event) : Z :=
  match tr with
  | [] => 0
  | Sleep ms :: rest => ms + totalSleep rest
  | Fetch _ :: rest => totalSleep rest
  end.

Fixpoint fetchCount (tr : list Event) : nat :=
  match tr with
  | [] => 0
  | Fetch _ :: rest => S (fetchCount rest)
  | Sleep _ :: rest => fetchCount rest
  end.

(** The envelope of a failed request. *)
Definition failureEnvelope {T : Type} (msg : string) (now : Z)
    : ApiResponse T :=
  mkResponse false None (Some msg) now.

Section Cases.

Variable T : Type.

Lemma trace_of_retries (net : nat -> FetchOutcome T) :
  exists n,
    (n <= 3)%nat
    /\ fst (apiRequest T net) = spec_trace n
    /\ snd (apiRequest T net) = finalCompletion T (tryBlock T (net n))
    /\ (forall k, (k < n)%nat -> retryableFailure T net k)
    /\ ((n < 3)%nat -> ~ retryableFailure T net n).
Proof.
  destruct (attemptLoop_shape T net (S maxRetries) 0 None)
    as [n [Hle [Htr [Hres [Hall Hlast]]]]];
    [reflexivity|unfold maxRetries; lia|].
  exists n. cbn [Nat.add] in *. unfold apiRequest.
  split; [exact Hle|]. split; [exact Htr|]. split; [exact Hres|].
  split; [intros k Hk; apply Hall; lia|exact Hlast].
Qed.

(** The number of retries is the index of the first attempt that is not a
    retryable failure, or three. *)
Lemma retries_determined (net : nat -> FetchOutcome T) (n : nat) :
  (n <= 3)%nat ->
  (forall k, (k < n)%nat -> retryableFailure T net k) ->
  ((n < 3)%nat -> ~ retryableFailure T net n) ->
  apiRequest T net
  = (spec_trace n, finalCompletion T (tryBlock T (net n))).
Proof.
  intros Hn Hbefore Hstop.
  destruct (trace_of_retries net) as [m [Hm [Htr [Hres [Hall Hlast]]]]].
  assert (m = n).
  { destruct (Nat.lt_trichotomy m n) as [Hlt|[Heq|Hgt]]; [|exact Heq|].
    - exfalso. apply Hlast; [lia|]. apply Hbefore. exact Hlt.
    - exfalso. apply Hstop; [lia|]. apply Hall. exact Hgt. }
  subst m. destruct (apiRequest T net) as [tr c]. cbn [fst snd] in *.
  now subst.
Qed.

Lemma spec_trace_sleep (n : nat) :
  (n <= 3)%nat ->
  totalSleep (spec_trace n) <= 7000 /\ fetchCount (spec_trace n) = S n.
Proof.
  intro Hn.
  destruct n as [|[|[|[|n]]]]; try lia; cbn; split; (lia || reflexivity).
Qed.

(** The text [request] reports for a caught value. *)
Definition errorText (err : Thrown) : string :=
  match err with
  | ThrownError e => message e
  | ThrownValue _ => "Unknown error"
  end.

Lemma request_of_apiRequest (net : nat -> FetchOutcome T) (now : Z)
    (tr : list Event) (c : Completion T) :
  apiRequest T net = (tr, c) ->
  request T net now
  = (tr,
     match c with
     | Normal d => Normal (mkResponse true (Some d) None now)
     | Abrupt (Some err) => Normal (failureEnvelope (errorText err) now)
     | Abrupt None => Normal (failureEnvelope "Unknown error" now)
     end).
Proof.
  intro H. unfold request. rewrite H.
  destruct c as [d|[[e|st]|]]; reflexivity.
Qed.

(** X11.  A request recovers from transient failures: when the first [n]
    attempts ([n <= 3]) fail with a network failure, an HTTP 5xx or HTTP 429
    and attempt [n] answers with a 2xx status and a JSON body, the caller gets
    [success = true] with that body, after exactly [n] retries with the
    pauses 1000, 2000, 4000 ms. *)
Theorem request_recovers_after_transient_failures :
  forall (net : nat -> FetchOutcome T) (now : Z) (n : nat) (d : T),
    (n <= 3)%nat ->
    (forall k, (k < n)%nat -> retryableFailure T net k) ->
    tryBlock T (net n) = Returns T (Normal d) ->
    request T net now
    = (spec_trace n, Normal (mkResponse true (Some d) None now)).
Proof.
  intros net now n d Hn Hbefore Hok.
  rewrite (request_of_apiRequest net now (spec_trace n) (Normal d));
    [reflexivity|].
  rewrite (retries_determined net n Hn Hbefore).
  - rewrite Hok. reflexivity.
  - intros _ [err [Hc _]]. congruence.
Qed.

(** X12.  When all four attempts fail with retryable failures, the request
    makes exactly four fetches with pauses of 1000, 2000 and 4000 ms, and
    returns [success = false] with the message of the last failure. *)
Theorem request_gives_up_after_three_retries :
  forall (net : nat -> FetchOutcome T) (now : Z),
    (forall k, (k <= 3)%nat -> retryableFailure T net k) ->
    exists err,
      tryBlock T (net 3%nat) = Caught T err
      /\ request T net now
         = ([Fetch 0; Sleep 1000; Fetch 1; Sleep 2000; Fetch 2; Sleep 4000;
             Fetch 3],
            Normal (failureEnvelope (errorText err) now)).
Proof.
  intros net now Hall.
  destruct (Hall 3%nat (Nat.le_refl 3)) as [err [Hc _]].
  exists err. split; [exact Hc|].
  rewrite (request_of_apiRequest net now (spec_trace 3)
             (Abrupt (Some err))); [reflexivity|].
  rewrite (retries_determined net 3).
  - rewrite Hc. reflexivity.
  - lia.
  - intros k Hk. apply Hall. lia.
  - lia.
Qed.

(** X13.  A response whose status is outside 2xx, is not 5xx and is not 429
    fails at once: one fetch, no pause, and an envelope with
    [success = false] whose message is
    ["API request failed: <status> <statusText>"]. *)
Theorem request_fails_at_once_on_client_error :
  forall (net : nat -> FetchOutcome T) (now st : Z) (statusText : string)
         (body : Body T),
    net 0%nat = Responds st statusText body ->
    response_ok st = false ->
    ~ 500 <= st <= 599 ->
    st <> 429 ->
    request T net now
    = ([Fetch 0],
       Normal (failureEnvelope
                 ("API request failed: " ++ JsText.toString st ++ " "
                  ++ statusText) now)).
Proof.
  intros net now st statusText body Hnet Hok H5 H429.
  assert (Htry : tryBlock T (net 0%nat)
                 = Caught T (ThrownError
                               (mkError false
                                  ("API request failed: "
                                   ++ JsText.toString st ++ " "
                                   ++ statusText) (Some st)))).
  { rewrite Hnet. cbn [tryBlock]. rewrite Hok. reflexivity. }
  rewrite (request_of_apiRequest net now (spec_trace 0)
             (Abrupt (Some (ThrownError
                              (mkError false
                                 ("API request failed: "
                                  ++ JsText.toString st ++ " "
                                  ++ statusText) (Some st))))));
    [reflexivity|].
  rewrite (retries_determined net 0).
  - rewrite Htry. reflexivity.
  - lia.
  - intros k Hk. lia.
  - intros _ [err [Hc Hr]]. rewrite Htry in Hc. injection Hc as <-.
    destruct Hr as [[e [He [Ht _]]]|[[s [Hs Hr]]|Hs]].
    + injection He as <-. discriminate.
    + cbn in Hs. injection Hs as <-. lia.
    + cbn in Hs. injection Hs as Hs. lia.
Qed.

(** X14.  A 2xx response whose body is not valid JSON is never retried,
    whatever the parse failure looks like: one fetch, and an envelope with
    [success = false] carrying the parse failure's message. *)
Theorem request_does_not_retry_unreadable_body :
  forall (net : nat -> FetchOutcome T) (now st : Z) (statusText : string)
         (err : Thrown),
    net 0%nat = Responds st statusText (BodyInvalid err) ->
    response_ok st = true ->
    request T net now
    = ([Fetch 0], Normal (failureEnvelope (errorText err) now)).
Proof.
  intros net now st statusText err Hnet Hok.
  assert (Htry : tryBlock T (net 0%nat) = Returns T (Abrupt (Some err))).
  { rewrite Hnet. cbn [tryBlock]. rewrite Hok. reflexivity. }
  rewrite (request_of_apiRequest net now (spec_trace 0)
             (Abrupt (Some err))); [reflexivity|].
  rewrite (retries_determined net 0).
  - rewrite Htry. reflexivity.
  - lia.
  - intros k Hk. lia.
  - intros _ [e [Hc _]]. congruence.
Qed.

(** X15.  Whatever the network does, a request makes between one and four
    fetches and sleeps at most 7000 ms in total. *)
Theorem request_cost_is_bounded :
  forall (net : nat -> FetchOutcome T) (now : Z),
    (1 <= fetchCount (fst (request T net now)) <= 4)%nat
    /\ 0 <= totalSleep (fst (request T net now)) <= 7000.
Proof.
  intros net now.
  destruct (trace_of_retries net) as [n [Hn [Htr _]]].
  assert (Hfst : fst (request T net now) = spec_trace n).
  { unfold request. destruct (apiRequest T net) as [tr c]. exact Htr. }
  rewrite Hfst.
  destruct n as [|[|[|[|n]]]]; try lia; cbn; lia.
Qed.

End Cases.

(** The pause before a retry is at least 1000 ms and at most 10000 ms,
    never shrinks from one attempt to the next, and is the cap of 10000 ms
    from the fifth attempt on. *)
Theorem retry_delay_schedule :
  forall attempt : nat,
    1000 <= getRetryDelay attempt <= 10000
    /\ getRetryDelay attempt <= getRetryDelay (S attempt)
    /\ getRetryDelay (4 + attempt) = 10000.
Proof.
  intro attempt. unfold getRetryDelay, baseDelay, maxDelay. cbv zeta.
  assert (H1 : 1 <= 2 ^ Z.of_nat attempt)
    by (apply Z.pow_le_mono_r with (b := 0) (a := 2); lia).
  assert (H2 : 2 ^ Z.of_nat (S attempt) = 2 * 2 ^ Z.of_nat attempt)
    by (rewrite Nat2Z.inj_succ, Z.pow_succ_r; lia).
  assert (H3 : 2 ^ Z.of_nat (4 + attempt) = 16 * 2 ^ Z.of_nat attempt).
  { replace (Z.of_nat (4 + attempt)) with (4 + Z.of_nat attempt) by lia.
    rewrite Z.pow_add_r by lia. reflexivity. }
  rewrite H2, H3. lia.
Qed.

(** A server that answers 503 twice and then 200 with a body. *)
Definition flakyThenFine (k : nat) : FetchOutcome Z :=
  match k with
  | 0%nat | 1%nat => Responds 503 "Service Unavailable" (BodyJson 0)
  | _ => Responds 200 "OK" (BodyJson 42)
  end.

Definition alwaysDown (_ : nat) : FetchOutcome Z :=
  Responds 500 "Internal Server Error" (BodyJson 0).

Lemma http_5xx_is_retryable (T : Type) (net : nat -> FetchOutcome T)
    (k : nat) (st : Z) (txt : string) (b : Body T) :
  net k = Responds st txt b -> 500 <= st <= 599 ->
  retryableFailure T net k.
Proof.
  intros Hnet Hst. unfold retryableFailure. rewrite Hnet. cbn [tryBlock].
  replace (response_ok st) with false
    by (unfold response_ok; symmetry; apply andb_false_iff; right;
        apply Z.leb_gt; lia).
  cbn. eexists. split; [reflexivity|].
  right. left. exists st. split; [reflexivity|exact Hst].
Qed.

Lemma request_recovers_after_transient_failures_witness :
  request Z flakyThenFine 7
  = (spec_trace 2, Normal (mkResponse true (Some 42) None 7)).
Proof.
  apply (request_recovers_after_transient_failures Z flakyThenFine 7 2 42).
  - lia.
  - intros k Hk.
    destruct k as [|[|k]]; [| |lia];
      apply (http_5xx_is_retryable Z flakyThenFine _ 503
               "Service Unavailable" (BodyJson 0)); (reflexivity || lia).
  - reflexivity.
Defined.

Lemma request_gives_up_after_three_retries_witness :
  exists err,
    tryBlock Z (alwaysDown 3%nat) = Caught Z err
    /\ request Z alwaysDown 7
       = ([Fetch 0; Sleep 1000; Fetch 1; Sleep 2000; Fetch 2; Sleep 4000;
           Fetch 3],
          Normal (failureEnvelope (errorText err) 7)).
Proof.
  apply (request_gives_up_after_three_retries Z alwaysDown 7).
  intros k _.
  apply (http_5xx_is_retryable Z alwaysDown k 500 "Internal Server Error"
           (BodyJson 0)); (reflexivity || lia).
Defined.

Lemma request_fails_at_once_on_client_error_witness :
  request Z (fun _ => Responds 404 "Not Found" (BodyJson 0)) 7
  = ([Fetch 0],
     Normal (failureEnvelope
               ("API request failed: " ++ JsText.toString 404 ++ " "
                ++ "Not Found") 7)).
Proof.
  apply (request_fails_at_once_on_client_error Z
           (fun _ => Responds 404 "Not Found" (BodyJson 0)) 7 404
           "Not Found" (BodyJson 0)).
  - reflexivity.
  - reflexivity.
  - lia.
  - lia.
Defined.

Definition syntaxError : Thrown :=
  ThrownError (mkError false "Unexpected token < in JSON at position 0" None).

Lemma request_does_not_retry_unreadable_body_witness :
  request Z (fun _ => Responds 200 "OK" (BodyInvalid syntaxError)) 7
  = ([Fetch 0], Normal (failureEnvelope (errorText syntaxError) 7)).
Proof.
  apply (request_does_not_retry_unreadable_body Z
           (fun _ => Responds 200 "OK" (BodyInvalid syntaxError)) 7 200 "OK"
           syntaxError); reflexivity.
Defined.

End ApiClientCases.

(** ** The push-channel client (services/socket) *)

Module SocketService.

Open Scope string_scope.
Open Scope nat_scope.

(** A listener is a function; the service only ever compares listeners by
    identity, so a listener is modelled by a number that names it. *)
Definition Listener : Type := nat.

Inductive DataSource := nasa_live | calculated_fallback.

(** How a call of a listener ends.  A listener that never returns stops the
    loop that called it just as one that throws does, and counts as
    [Threw]. *)
Inductive Outcome := Returned | Threw.

Section Service.

(** The payload of a position update. *)
Variable Positions : Type.

(** What the listeners keep for themselves between calls. *)
Variable Hidden : Type.

Record Service := mkService {
  connected : bool;
  positionUpdateListeners : list Listener;
  connectionListeners : list Listener;
  dataSourceListeners : list Listener
}.

(** What the service does to the outside: it calls a listener with a value,
    or emits a message on the socket. *)
Inductive Effect :=
| CallPosition (cb : Listener) (data : Positions)
| CallConnection (cb : Listener) (isConnected : bool)
| CallDataSource (cb : Listener) (source : DataSource)
| Emit (message : string).

(** [listeners.filter(cb => cb !== callback)] *)
Definition without (callback : Listener) (listeners : list Listener)
    : list Listener :=
  filter (fun cb => negb (Nat.eqb cb callback)) listeners.

(** [onPositionUpdate]: the registration, and the function it returns. *)
Definition onPositionUpdate (s : Service) (callback : Listener) : Service :=
  mkService (connected s) (positionUpdateListeners s ++ [callback])
            (connectionListeners s) (dataSourceListeners s).

Definition offPositionUpdate (s : Service) (callback : Listener) : Service :=
  mkService (connected s) (without callback (positionUpdateListeners s))
            (connectionListeners s) (dataSourceListeners s).

Definition onConnectionChange (s : Service) (callback : Listener) : Service :=
  mkService (connected s) (positionUpdateListeners s)
            (connectionListeners s ++ [callback]) (dataSourceListeners s).

Definition offConnectionChange (s : Service) (callback : Listener)
    : Service :=
  mkService (connected s) (positionUpdateListeners s)
            (without callback (connectionListeners s))
            (dataSourceListeners s).

Definition onDataSourceChange (s : Service) (callback : Listener) : Service :=
  mkService (connected s) (positionUpdateListeners s)
            (connectionListeners s) (dataSourceListeners s ++ [callback]).

Definition offDataSourceChange (s : Service) (callback : Listener)
    : Service :=
  mkService (connected s) (positionUpdateListeners s)
            (connectionListeners s)
            (without callback (dataSourceListeners s)).

(** Everything a running listener can read and change: the service, through
    its public methods, and its own state. *)
Definition World : Type := (Service * Hidden)%type.

(** The body of the listener an effect calls: what it leaves behind, and how
    it ends.  Nothing is assumed about it. *)
Variable body : Effect -> World -> World * Outcome.

(** One loop over listeners: the world it leaves, the calls it made, in
    order, and how it ended. *)
Record Pass := mkPass {
  world_after : World;
  calls : list Effect;
  outcome : Outcome
}.

(** [listeners.forEach(listener => listener(value))].  The loop walks the
    array it was started on, up to the length that array had then: a
    listener registered while the loop runs is pushed past that length, and
    an unsubscription gives the service a filtered copy and leaves the array
    being walked alone, so [listeners] is fixed when the loop starts.  A
    listener that throws ends the loop. *)
Fixpoint forEach (call : Listener -> Effect) (listeners : list Listener)
    (w : World) : Pass :=
  match listeners with
  | [] => mkPass w [] Returned
  | listener :: rest =>
      match body (call listener) w with
      | (w', Threw) => mkPass w' [call listener] Threw
      | (w', Returned) =>
          let p := forEach call rest w' in
          mkPass (world_after p) (call listener :: calls p) (outcome p)
      end
  end.

Definition notifyPositionListeners (w : World) (positions : Positions)
    : Pass :=
  forEach (fun listener => CallPosition listener positions)
          (positionUpdateListeners (fst w)) w.

Definition notifyConnectionListeners (w : World) (isConnected : bool)
    : Pass :=
  forEach (fun listener => CallConnection listener isConnected)
          (connectionListeners (fst w)) w.

Definition notifyDataSourceListeners (w : World) (source : DataSource)
    : Pass :=
  forEach (fun listener => CallDataSource listener source)
          (dataSourceListeners (fst w)) w.

Definition subscribeToPositionUpdates (s : Service) : list Effect :=
  if connected s then [Emit "subscribe_position_updates"] else [].

Definition unsubscribeFromPositionUpdates (s : Service) : list Effect :=
  if connected s then [Emit "unsubscribe_position_updates"] else [].

(** The events the socket delivers.  The socket is connected when it
    delivers [connect] and not connected when it delivers [disconnect]. *)
Inductive SocketEvent :=
| EvConnect
| EvDisconnect
| EvPositionUpdate (data : Positions)
| EvDataSourceChange (source : DataSource).

Definition setConnected (s : Service) (b : bool) : Service :=
  mkService b (positionUpdateListeners s) (connectionListeners s)
            (dataSourceListeners s).

(** The four handlers installed by [connect].  In the [connect] handler the
    subscription is emitted only when the loop over the connection
    listeners returned. *)
Definition handle (w : World) (ev : SocketEvent) : Pass :=
  match ev with
  | EvConnect =>
      let p :=
        notifyConnectionListeners (setConnected (fst w) true, snd w) true in
      match outcome p with
      | Returned =>
          mkPass (world_after p)
                 (calls p
                  ++ subscribeToPositionUpdates (fst (world_after p)))%list
                 Returned
      | Threw => p
      end
  | EvDisconnect =>
      notifyConnectionListeners (setConnected (fst w) false, snd w) false
  | EvPositionUpdate data => notifyPositionListeners w data
  | EvDataSourceChange source => notifyDataSourceListeners w source
  end.

End Service.

Arguments CallPosition {Positions}.
Arguments CallConnection {Positions}.
Arguments CallDataSource {Positions}.
Arguments Emit {Positions}.
Arguments mkPass {Positions Hidden}.
Arguments world_after {Positions Hidden}.
Arguments calls {Positions Hidden}.
Arguments outcome {Positions Hidden}.

Section ListenerLaws.

Variable Positions : Type.
Variable Hidden : Type.
Variable body : Effect Positions -> World Hidden -> World Hidden * Outcome.

Lemma without_absent (cb : Listener) (l : list Listener) :
  ~ In cb l -> without cb l = l.
Proof.
  induction l as [|h t IH]; intro Hn; [reflexivity|].
  cbn. destruct (Nat.eqb h cb) eqn:E.
  - apply Nat.eqb_eq in E. subst. exfalso. apply Hn. now left.
  - cbn. fold (without cb t). rewrite IH; [reflexivity|].
    intro Hin. apply Hn. now right.
Qed.

Lemma without_In (cb other : Listener) (l : list Listener) :
  In other (without cb l) <-> In other l /\ other <> cb.
Proof.
  unfold without. rewrite filter_In, negb_true_iff, Nat.eqb_neq. tauto.
Qed.

Lemma without_other (cb other : Listener) (l : list Listener) :
  other <> cb ->
  count_occ Nat.eq_dec (without cb l) other = count_occ Nat.eq_dec l other.
Proof.
  intro Hne. induction l as [|h t IH]; [reflexivity|].
  cbn. destruct (Nat.eqb h cb) eqn:E.
  - apply Nat.eqb_eq in E. subst h. cbn.
    destruct (Nat.eq_dec cb other) as [Heq|_]; [congruence|exact IH].
  - cbn. destruct (Nat.eq_dec h other); [f_equal|]; exact IH.
Qed.

(** X16.  The function returned by [onPositionUpdate] removes every
    registration of its callback, not just its own: afterwards the callback
    is not registered at all, every other listener is registered as many
    times as before, calling it again changes nothing, and the listeners of
    the other two categories are untouched. *)
Theorem unsubscribe_removes_every_registration :
  forall (s : Service) (callback other : Listener),
    other <> callback ->
    ~ In callback (positionUpdateListeners (offPositionUpdate s callback))
    /\ count_occ Nat.eq_dec
         (positionUpdateListeners (offPositionUpdate s callback)) other
       = count_occ Nat.eq_dec (positionUpdateListeners s) other
    /\ offPositionUpdate (offPositionUpdate s callback) callback
       = offPositionUpdate s callback
    /\ connectionListeners (offPositionUpdate s callback)
       = connectionListeners s
    /\ dataSourceListeners (offPositionUpdate s callback)
       = dataSourceListeners s.
Proof.
  intros s callback other Hne. cbn.
  split; [rewrite without_In; tauto|].
  split; [now apply without_other|].
  split; [|split; reflexivity].
  unfold offPositionUpdate. cbn. f_equal.
  apply without_absent. rewrite without_In. tauto.
Qed.

Definition twiceRegistered : Service := mkService true [1; 2; 1] [] [].

Lemma unsubscribe_removes_every_registration_witness :
  ~ In 1 (positionUpdateListeners (offPositionUpdate twiceRegistered 1))
  /\ count_occ Nat.eq_dec
       (positionUpdateListeners (offPositionUpdate twiceRegistered 1)) 2
     = count_occ Nat.eq_dec (positionUpdateListeners twiceRegistered) 2
  /\ offPositionUpdate (offPositionUpdate twiceRegistered 1) 1
     = offPositionUpdate twiceRegistered 1
  /\ connectionListeners (offPositionUpdate twiceRegistered 1)
     = connectionListeners twiceRegistered
  /\ dataSourceListeners (offPositionUpdate twiceRegistered 1)
     = dataSourceListeners twiceRegistered.
Proof.
  apply (unsubscribe_removes_every_registration twiceRegistered 1 2).
  discriminate.
Defined.

(** Registering a listener that was not registered and then calling
    the function it got back leaves the service exactly as it was. *)
Theorem subscribe_then_unsubscribe_restores :
  forall (s : Service) (callback : Listener),
    ~ In callback (positionUpdateListeners s) ->
    offPositionUpdate (onPositionUpdate s callback) callback = s.
Proof.
  intros [c p cn ds] callback Hn. cbn in Hn.
  unfold offPositionUpdate, onPositionUpdate. cbn. f_equal.
  unfold without. rewrite filter_app. cbn. rewrite Nat.eqb_refl. cbn.
  rewrite app_nil_r. now apply without_absent.
Qed.

Lemma subscribe_then_unsubscribe_restores_witness :
  offPositionUpdate (onPositionUpdate twiceRegistered 3) 3 = twiceRegistered.
Proof.
  apply (subscribe_then_unsubscribe_restores twiceRegistered 3).
  cbn. intros [H|[H|[H|[]]]]; discriminate.
Defined.






End ListenerLaws.

(** A service with listener 1 registered twice around listener 2, and
    listeners of which the second throws. *)
Definition secondThrows (effect : Effect unit) (w : World unit)
    : World unit * Outcome :=
  match effect with
  | CallPosition 2 _ => (w, Threw)
  | _ => (w, Returned)
  end.

(** The throwing listener ends the loop: the second registration of
    listener 1 is not called. *)
Lemma throwing_listener_ends_the_loop :
  handle unit unit secondThrows (twiceRegistered, tt)
         (EvPositionUpdate unit tt)
  = mkPass (twiceRegistered, tt) [CallPosition 1 tt; CallPosition 2 tt] Threw.
Proof. reflexivity. Qed.

(** Listeners that reach back into the service: listener 1 unsubscribes
    listener 2 while it runs.  The loop under way still calls listener 2;
    the service is left without it. *)
Definition firstUnsubscribesSecond (effect : Effect unit) (w : World unit)
    : World unit * Outcome :=
  match effect with
  | CallPosition 1 _ => ((offPositionUpdate (fst w) 2, snd w), Returned)
  | _ => (w, Returned)
  end.

Lemma unsubscribed_during_loop_still_called :
  handle unit unit firstUnsubscribesSecond (twiceRegistered, tt)
         (EvPositionUpdate unit tt)
  = mkPass (mkService true [1; 1] [] [], tt)
           [CallPosition 1 tt; CallPosition 2 tt; CallPosition 1 tt]
           Returned.
Proof. reflexivity. Qed.


End SocketService.

(** ** Orbital mechanics: geometry of the position functions *)

Module OrbitalGeometry.

Import OrbitalMechanics.

Open Scope R_scope.

(** Distance between two points of space. *)
Definition dist3 (p q : R * R * R) : R :=
  let '(x1, y1, z1) := p in
  let '(x2, y2, z2) := q in
  sqrt ((x1 - x2) * (x1 - x2) + (y1 - y2) * (y1 - y2)
        + (z1 - z2) * (z1 - z2)).

(** [v.lerp(w, alpha)] of THREE.Vector3: each coordinate moves by
    [(w - v) * alpha]. *)
Definition lerp (v w : Vector3) (alpha : R) : Vector3 :=
  mkVector3 (vx v + (vx w - vx v) * alpha)
            (vy v + (vy w - vy v) * alpha)
            (vz v + (vz w - vz v) * alpha).

Definition interceptSteps : nat := 100.

(** Point [i] of [calculateInterceptTrajectory]. *)
Definition interceptPoint (startPos targetPos : R * R * R)
    (propulsionType : MissionStore.PropulsionType) (i : nat) : Vector3 :=
  let '(sx, sy, sz) := startPos in
  let '(tx, ty, tz) := targetPos in
  let start := mkVector3 sx sy sz in
  let target := mkVector3 tx ty tz in
  let t := INR i / INR interceptSteps in
  let position := lerp start target t in
  let curve :=
    sin (t * PI) * 5
    * match propulsionType with
      | MissionStore.ion => 2
      | _ => 1
      end in
  mkVector3 (vx position) (vy position + curve) (vz position).

(** [calculateInterceptTrajectory]; the intercept time is not used. *)
Definition calculateInterceptTrajectory (startPos targetPos : R * R * R)
    (_interceptTime : R) (propulsionType : MissionStore.PropulsionType)
    : list Vector3 :=
  map (interceptPoint startPos targetPos propulsionType)
      (seq 0 (S interceptSteps)).

(** *** True anomaly *)

Lemma half_turn_cos_pos (E : R) : - PI < E < PI -> 0 < cos (E / 2).
Proof. intro H. apply cos_gt_0; lra. Qed.

Lemma atan2_right_half (y x : R) : 0 < x -> atan2 y x = atan (y / x).
Proof.
  intro H. unfold atan2. destruct (Rlt_dec 0 x); [reflexivity|lra].
Qed.

Lemma trueAnomaly_half_angle (E e : R) :
  0 <= e < 1 -> - PI < E < PI ->
  calculateTrueAnomaly E e
  = 2 * atan (sqrt (1 + e) / sqrt (1 - e) * tan (E / 2)).
Proof.
  intros He HE. unfold calculateTrueAnomaly.
  pose proof (half_turn_cos_pos E HE) as Hc.
  assert (Hs : 0 < sqrt (1 - e)) by (apply sqrt_lt_R0; lra).
  rewrite atan2_right_half by (apply Rmult_lt_0_compat; assumption).
  f_equal. f_equal. unfold tan. field. lra.
Qed.

Lemma trueAnomaly_circular (E : R) :
  - PI < E < PI -> calculateTrueAnomaly E 0 = E.
Proof.
  intro HE. rewrite trueAnomaly_half_angle by lra.
  replace (1 + 0) with 1 by ring. replace (1 - 0) with 1 by ring.
  rewrite sqrt_1.
  replace (1 / 1 * tan (E / 2)) with (tan (E / 2)) by field.
  rewrite atan_tan by lra. field.
Qed.

(** X18.  For an ellipse ([0 <= e < 1]) and an eccentric anomaly strictly
    within half a turn of periapsis, the true anomaly is also within half a
    turn, satisfies the half-angle relation
    [tan (nu / 2) = sqrt ((1 + e)) / sqrt (1 - e) * tan (E / 2)], and for a
    circle it is the eccentric anomaly itself. *)
Theorem true_anomaly_half_angle_relation :
  forall E e : R,
    0 <= e < 1 -> - PI < E < PI ->
    - PI < calculateTrueAnomaly E e < PI
    /\ tan (calculateTrueAnomaly E e / 2)
       = sqrt (1 + e) / sqrt (1 - e) * tan (E / 2)
    /\ calculateTrueAnomaly E 0 = E.
Proof.
  intros E e He HE.
  rewrite trueAnomaly_half_angle by assumption.
  set (u := sqrt (1 + e) / sqrt (1 - e) * tan (E / 2)).
  pose proof (atan_bound u) as Hb.
  split; [lra|]. split.
  - replace (2 * atan u / 2) with (atan u) by field. apply tan_atan.
  - now apply trueAnomaly_circular.
Qed.

Lemma true_anomaly_half_angle_relation_witness :
  - PI < calculateTrueAnomaly 1 (1 / 2) < PI
  /\ tan (calculateTrueAnomaly 1 (1 / 2) / 2)
     = sqrt (1 + 1 / 2) / sqrt (1 - 1 / 2) * tan (1 / 2)
  /\ calculateTrueAnomaly 1 0 = 1.
Proof.
  apply (true_anomaly_half_angle_relation 1 (1 / 2)).
  - lra.
  - generalize PI_RGT_0 PI2_3_2. lra.
Defined.

(** *** Distance from the focus *)

Lemma conic_radius_bounds (a e c : R) :
  0 <= a -> 0 <= e < 1 -> -1 <= c <= 1 ->
  a * (1 - e) <= a * (1 - e ^ 2) / (1 + e * c) <= a * (1 + e).
Proof.
  intros Ha He Hc.
  assert (Hd : 0 < 1 + e * c) by nra.
  assert (Hlow : 0 <= a * (1 - e)) by (apply Rmult_le_pos; lra).
  assert (Hhigh : 0 <= a * (1 + e)) by (apply Rmult_le_pos; lra).
  assert (Hec : e * c <= e) by nra.
  assert (Hec' : - e <= e * c) by nra.
  split.
  - apply Rmult_le_reg_r with (1 + e * c); [exact Hd|].
    replace (a * (1 - e ^ 2) / (1 + e * c) * (1 + e * c))
      with (a * (1 - e) * (1 + e)) by (field; lra).
    apply Rmult_le_compat_l; [exact Hlow|lra].
  - apply Rmult_le_reg_r with (1 + e * c); [exact Hd|].
    replace (a * (1 - e ^ 2) / (1 + e * c) * (1 + e * c))
      with (a * (1 + e) * (1 - e)) by (field; lra).
    apply Rmult_le_compat_l; [exact Hhigh|lra].
Qed.

(** X19.  On an ellipse ([a >= 0], [0 <= e < 1]) the orbital-plane position
    is never closer to the focus than the periapsis distance [a (1 - e)] nor
    farther than the apoapsis distance [a (1 + e)]; true anomaly 0 is the
    periapsis, on the positive x axis, and true anomaly pi the apoapsis, on
    the negative x axis. *)
Theorem orbital_position_between_apsides :
  forall (elements : OrbitalElements) (nu : R),
    0 <= a elements ->
    0 <= e elements < 1 ->
    (let '(x, y) := calculateOrbitalPosition elements nu in
     a elements * (1 - e elements) <= sqrt (x * x + y * y)
     <= a elements * (1 + e elements))
    /\ calculateOrbitalPosition elements 0
       = (a elements * (1 - e elements), 0)
    /\ calculateOrbitalPosition elements PI
       = (- (a elements * (1 + e elements)), 0).
Proof.
  intros elements nu Ha He. unfold calculateOrbitalPosition. cbv zeta.
  split; [|split].
  - set (r := a elements * (1 - e elements ^ 2)
              / (1 + e elements * cos nu)).
    pose proof (conic_radius_bounds (a elements) (e elements) (cos nu)
                  Ha He (COS_bound nu)) as Hr. fold r in Hr.
    assert (Hr0 : 0 <= r) by nra.
    replace (r * cos nu * (r * cos nu) + r * sin nu * (r * sin nu))
      with (r * r * (sin nu * sin nu + cos nu * cos nu)) by ring.
    rewrite sin_cos_square, Rmult_1_r, sqrt_square by exact Hr0.
    exact Hr.
  - rewrite cos_0, sin_0. f_equal; field; lra.
  - rewrite cos_PI, sin_PI. f_equal; field; lra.
Qed.

Definition mercuryLike : OrbitalElements :=
  mkElements (387 / 1000) (206 / 1000) 7 (291 / 10) (483 / 10) 0 0.

Lemma orbital_position_between_apsides_witness :
  (let '(x, y) := calculateOrbitalPosition mercuryLike 1 in
   a mercuryLike * (1 - e mercuryLike) <= sqrt (x * x + y * y)
   <= a mercuryLike * (1 + e mercuryLike))
  /\ calculateOrbitalPosition mercuryLike 0
     = (a mercuryLike * (1 - e mercuryLike), 0)
  /\ calculateOrbitalPosition mercuryLike PI
     = (- (a mercuryLike * (1 + e mercuryLike)), 0).
Proof.
  apply (orbital_position_between_apsides mercuryLike 1); simpl; lra.
Defined.

(** *** The rotation into the ecliptic frame *)

Lemma transformToEcliptic_sub (x1 y1 x2 y2 : R)
    (elements : OrbitalElements) :
  let '(X1, Y1, Z1) := transformToEcliptic x1 y1 elements in
  let '(X2, Y2, Z2) := transformToEcliptic x2 y2 elements in
  transformToEcliptic (x1 - x2) (y1 - y2) elements
  = (X1 - X2, Y1 - Y2, Z1 - Z2).
Proof. unfold transformToEcliptic. cbv zeta. f_equal; [f_equal|]; ring. Qed.

(** X20.  The rotation into the ecliptic frame keeps distances: two
    orbital-plane points are as far apart after the rotation as before, and
    the focus stays at the origin, whatever the three orientation angles. *)
Theorem ecliptic_rotation_keeps_distances :
  forall (x1 y1 x2 y2 : R) (elements : OrbitalElements),
    dist3 (transformToEcliptic x1 y1 elements)
          (transformToEcliptic x2 y2 elements)
    = sqrt ((x1 - x2) * (x1 - x2) + (y1 - y2) * (y1 - y2))
    /\ transformToEcliptic 0 0 elements = (0, 0, 0).
Proof.
  intros x1 y1 x2 y2 elements. split.
  - pose proof (transformToEcliptic_sub x1 y1 x2 y2 elements) as Hsub.
    pose proof (transformToEcliptic_norm (x1 - x2) (y1 - y2) elements)
      as Hnorm.
    destruct (transformToEcliptic x1 y1 elements) as [[X1 Y1] Z1].
    destruct (transformToEcliptic x2 y2 elements) as [[X2 Y2] Z2].
    rewrite Hsub in Hnorm. exact Hnorm.
  - unfold transformToEcliptic. cbv zeta. f_equal; [f_equal|]; ring.
Qed.

(** X21.  Over the reals, a circular orbit with a semi-major axis other
    than zero, in the reference orientation (all three angles zero),
    evaluated at its epoch with a mean anomaly at epoch strictly within half
    a turn, is at [(a cos M0, a sin M0, 0)]; with [M0 = 0] that is
    [(a, 0, 0)].  The Kepler solve stops after one iteration.  The axis must
    not be zero: the mean motion divides by [|a ^ 3|], and the code's
    quotient by zero is infinite, which times the zero time difference is
    not a number. *)
Theorem circular_reference_orbit_at_epoch :
  forall (elements : OrbitalElements) (fuel : nat),
    a elements <> 0 ->
    e elements = 0 ->
    i elements = 0 -> omega elements = 0 -> Omega elements = 0 ->
    - PI < M0 elements < PI ->
    (1 <= fuel)%nat ->
    calculatePositionElliptic fuel (epoch elements) elements
    = Some (a elements * cos (M0 elements),
            a elements * sin (M0 elements), 0).
Proof.
  intros elements fuel Ha He Hi Hw HW HM Hfuel.
  assert (Hmotion : 0 < 398600.4418 / Rabs (a elements ^ 3)).
  { apply Rdiv_lt_0_compat; [lra|].
    apply Rabs_pos_lt, pow_nonzero, Ha. }
  unfold calculatePositionElliptic, calculateMeanAnomaly. cbv zeta.
  replace (M0 elements
           + sqrt (398600.4418 / Rabs (a elements ^ 3))
             * (epoch elements - epoch elements))
    with (M0 elements) by ring.
  rewrite He.
  rewrite solveKepler_circular;
    [|exact Hfuel|apply defaultTolerance_pos|unfold defaultTolerance; lra].
  rewrite trueAnomaly_circular by exact HM.
  rewrite circular_orbital_position by exact He.
  unfold transformToEcliptic, degToRad. rewrite Hi, Hw, HW. cbv zeta.
  replace (0 * (PI / 180)) with 0 by ring.
  rewrite cos_0, sin_0. f_equal. f_equal; [f_equal|]; ring.
Qed.

Lemma circular_reference_orbit_at_epoch_witness :
  calculatePositionElliptic 1 (epoch unitCircle) unitCircle
  = Some (a unitCircle * cos (M0 unitCircle),
          a unitCircle * sin (M0 unitCircle), 0).
Proof.
  apply (circular_reference_orbit_at_epoch unitCircle 1);
    try reflexivity.
  - simpl. lra.
  - simpl. generalize PI_RGT_0. lra.
Defined.

(** *** Orbit paths are planar and symmetric *)

Lemma orbit_angle_mirror (numPoints k : nat) :
  (1 <= numPoints)%nat -> (k <= numPoints)%nat ->
  INR (numPoints - k) / INR numPoints * 2 * PI
  = 2 * PI - INR k / INR numPoints * 2 * PI.
Proof.
  intros Hn Hk. rewrite minus_INR by exact Hk.
  assert (INR numPoints <> 0) by (apply not_0_INR; lia).
  field. assumption.
Qed.

Lemma cos_mirror (t : R) : cos (2 * PI - t) = cos t.
Proof. rewrite cos_minus, cos_2PI, sin_2PI. ring. Qed.

Lemma sin_mirror (t : R) : sin (2 * PI - t) = - sin t.
Proof. rewrite sin_minus, cos_2PI, sin_2PI. ring. Qed.

(** X22.  Every point of an orbit path lies in the plane [y = 0], and the
    path is symmetric about the line of apsides: point [numPoints - k] is the
    mirror image of point [k] (same [x], opposite [z]).  On an ellipse every
    point is between the periapsis and apoapsis distances from the focus. *)
Theorem orbit_path_planar_and_symmetric :
  forall (a e : R) (numPoints k : nat) (d : Vector3),
    0 <= a -> 0 <= e < 1 ->
    (1 <= numPoints)%nat -> (k <= numPoints)%nat ->
    let path := createOrbitPath a e numPoints in
    vy (nth k path d) = 0
    /\ vx (nth (numPoints - k) path d) = vx (nth k path d)
    /\ vz (nth (numPoints - k) path d) = - vz (nth k path d)
    /\ a * (1 - e)
       <= sqrt (vx (nth k path d) * vx (nth k path d)
                + vz (nth k path d) * vz (nth k path d))
       <= a * (1 + e).
Proof.
  intros a e numPoints k d Ha He Hn Hk path. subst path.
  rewrite !createOrbitPath_nth by lia.
  unfold orbitPoint. cbv zeta. cbn [vx vy vz].
  rewrite orbit_angle_mirror by assumption.
  set (t := INR k / INR numPoints * 2 * PI).
  rewrite cos_mirror, sin_mirror.
  split; [reflexivity|]. split; [reflexivity|]. split; [ring|].
  set (r := a * (1 - e ^ 2) / (1 + e * cos t)).
  pose proof (conic_radius_bounds a e (cos t) Ha He (COS_bound t)) as Hr.
  fold r in Hr.
  assert (Hr0 : 0 <= r) by nra.
  replace (r * cos t * (r * cos t) + r * sin t * (r * sin t))
    with (r * r * (sin t * sin t + cos t * cos t)) by ring.
  rewrite sin_cos_square, Rmult_1_r, sqrt_square by exact Hr0.
  exact Hr.
Qed.

Lemma orbit_path_planar_and_symmetric_witness :
  let path := createOrbitPath 1 (1 / 2) 360 in
  vy (nth 90 path (mkVector3 0 0 0)) = 0
  /\ vx (nth (360 - 90) path (mkVector3 0 0 0))
     = vx (nth 90 path (mkVector3 0 0 0))
  /\ vz (nth (360 - 90) path (mkVector3 0 0 0))
     = - vz (nth 90 path (mkVector3 0 0 0))
  /\ 1 * (1 - 1 / 2)
     <= sqrt (vx (nth 90 path (mkVector3 0 0 0))
              * vx (nth 90 path (mkVector3 0 0 0))
              + vz (nth 90 path (mkVector3 0 0 0))
                * vz (nth 90 path (mkVector3 0 0 0)))
     <= 1 * (1 + 1 / 2).
Proof.
  apply (orbit_path_planar_and_symmetric 1 (1 / 2) 360 90
           (mkVector3 0 0 0)); try lra; lia.
Defined.

(** *** The interceptor trajectory *)

Lemma intercept_nth (s t : R * R * R) (time : R)
    (p : MissionStore.PropulsionType) (k : nat) (d : Vector3) :
  (k <= 100)%nat ->
  nth k (calculateInterceptTrajectory s t time p) d = interceptPoint s t p k.
Proof.
  intro Hk. unfold calculateInterceptTrajectory.
  rewrite (nth_indep _ d (interceptPoint s t p 0%nat))
    by (rewrite length_map, length_seq; unfold interceptSteps; lia).
  rewrite map_nth, seq_nth by (unfold interceptSteps; lia). reflexivity.
Qed.

Lemma intercept_fraction (k : nat) :
  (k <= 100)%nat -> 0 <= INR k / INR interceptSteps <= 1.
Proof.
  intro Hk. unfold interceptSteps.
  assert (H100 : INR 100 = 100) by (simpl; lra).
  rewrite H100.
  pose proof (pos_INR k) as H0.
  assert (Hle : INR k <= 100) by (rewrite <- H100; apply le_INR; exact Hk).
  split.
  - apply Rmult_le_pos; [exact H0|lra].
  - apply Rmult_le_reg_r with 100; [lra|].
    replace (INR k / 100 * 100) with (INR k) by field. lra.
Qed.

(** The factor by which an ion drive widens the curve. *)
Definition curveFactor (p : MissionStore.PropulsionType) : R :=
  match p with
  | MissionStore.ion => 2
  | _ => 1
  end.

(** X23.  The interceptor trajectory has 101 points, starts exactly at the
    start position and ends exactly at the target.  Every point lies on the
    straight segment from start to target in [x] and [z]; its [y] is that of
    the segment raised by a bump between 0 and 5 (between 0 and 10 for an ion
    drive). *)
Theorem intercept_trajectory_shape :
  forall (sx sy sz tx ty tz time : R) (p : MissionStore.PropulsionType)
         (k : nat) (d : Vector3),
    (k <= 100)%nat ->
    let path :=
      calculateInterceptTrajectory (sx, sy, sz) (tx, ty, tz) time p in
    let t := INR k / 100 in
    List.length path = 101%nat
    /\ nth 0 path d = mkVector3 sx sy sz
    /\ nth 100 path d = mkVector3 tx ty tz
    /\ vx (nth k path d) = sx + (tx - sx) * t
    /\ vz (nth k path d) = sz + (tz - sz) * t
    /\ 0 <= vy (nth k path d) - (sy + (ty - sy) * t) <= 5 * curveFactor p.
Proof.
  intros sx sy sz tx ty tz time p k d Hk path t. subst path t.
  assert (H100 : INR 100 = 100) by (simpl; lra).
  split.
  { unfold calculateInterceptTrajectory.
    now rewrite length_map, length_seq. }
  rewrite !intercept_nth by lia.
  unfold interceptPoint, lerp, interceptSteps. cbv zeta. cbn [vx vy vz].
  rewrite H100.
  split.
  { cbn [INR]. replace (0 / 100 * PI) with 0 by field.
    rewrite sin_0. f_equal; field. }
  split.
  { replace (100 / 100 * PI) with PI by field.
    rewrite sin_PI. f_equal; field. }
  split; [reflexivity|]. split; [reflexivity|].
  pose proof (intercept_fraction k Hk) as Hf.
  unfold interceptSteps in Hf. rewrite H100 in Hf.
  set (t := INR k / 100) in *.
  assert (Hs : 0 <= sin (t * PI) <= 1).
  { split; [|apply SIN_bound].
    apply sin_ge_0; generalize PI_RGT_0; nra. }
  fold (curveFactor p).
  assert (Hc : 1 <= curveFactor p <= 2) by (destruct p; cbn; lra).
  assert (Hb : 0 <= sin (t * PI) * curveFactor p <= curveFactor p) by nra.
  lra.
Qed.

Lemma intercept_trajectory_shape_witness :
  let path :=
    calculateInterceptTrajectory (30, 0, 0) (0, 0, 60) 0 MissionStore.ion in
  let t := INR 50 / 100 in
  List.length path = 101%nat
  /\ nth 0 path (mkVector3 0 0 0) = mkVector3 30 0 0
  /\ nth 100 path (mkVector3 0 0 0) = mkVector3 0 0 60
  /\ vx (nth 50 path (mkVector3 0 0 0)) = 30 + (0 - 30) * t
  /\ vz (nth 50 path (mkVector3 0 0 0)) = 0 + (60 - 0) * t
  /\ 0 <= vy (nth 50 path (mkVector3 0 0 0)) - (0 + (0 - 0) * t)
     <= 5 * curveFactor MissionStore.ion.
Proof.
  apply (intercept_trajectory_shape 30 0 0 0 0 60 0 MissionStore.ion 50
           (mkVector3 0 0 0)).
  lia.
Defined.

End OrbitalGeometry.

(** ** Mission success heuristic: what the score can and cannot be *)

Module SuccessFacts.

Import MissionStore SuccessProbability.

Open Scope Q_scope.

(** The velocity the heuristic scores best for each drive. *)
Definition optimalVelocity (p : PropulsionType) : Q :=
  match p with
  | chemical => 15
  | ion => 8
  | nuclear => 25
  end.

Lemma unscaled_at_most_ninety (d v : Q) (p : PropulsionType) :
  0 <= d -> unscaled d v p <= 90.
Proof.
  intro Hd. unfold unscaled.
  assert (H1 : 0 <= Qmin (d / 1000000) 50).
  { apply Q.min_glb; [|discriminate].
    apply Qle_shift_div_l; [reflexivity|lra]. }
  pose proof (Qabs_nonneg (v - match p with
                               | chemical => 15
                               | ion => 8
                               | nuclear => 25
                               end)) as H2.
  lra.
Qed.

(** X24.  For a distance that is not negative and a fuel level of 0..100 the
    score never exceeds 90, so the upper clamp of 95 is never what decides
    it; with no fuel the score is the floor, 5; the score depends on the
    velocity only through its distance from the drive's optimum (15, 8 or 25
    km/s), equally above and below; and beyond 50 million km the distance no
    longer matters. *)
Theorem success_probability_reachable_values :
  forall (d v f delta extra : Q) (p : PropulsionType),
    0 <= d -> 0 <= f <= 100 -> 0 <= extra ->
    calculateSuccessProbability d v f p <= 90
    /\ calculateSuccessProbability d v 0 p == 5
    /\ calculateSuccessProbability d (optimalVelocity p + delta) f p
       == calculateSuccessProbability d (optimalVelocity p - delta) f p
    /\ calculateSuccessProbability (50000000 + extra) v f p
       == calculateSuccessProbability 50000000 v f p.
Proof.
  intros d v f delta extra p Hd Hf Hx.
  rewrite !probability_unfold.
  split; [|split; [|split]].
  - pose proof (unscaled_at_most_ninety d v p Hd) as Hu.
    apply Q.max_lub; [|discriminate].
    eapply Qle_trans; [apply Q.le_min_l|].
    destruct (Qlt_le_dec (unscaled d v p) 0) as [Hneg|Hpos].
    + assert (0 <= f / 100)
        by (apply Qle_shift_div_l; [reflexivity|lra]).
      nra.
    + assert (f / 100 <= 1)
        by (apply Qle_shift_div_r; [reflexivity|lra]).
      assert (0 <= f / 100)
        by (apply Qle_shift_div_l; [reflexivity|lra]).
      nra.
  - apply clamp_nonpos.
    setoid_replace (unscaled d v p * (0 / 100)) with 0 by (field).
    apply Qle_refl.
  - assert (Hsym : unscaled d (optimalVelocity p + delta) p
                   == unscaled d (optimalVelocity p - delta) p).
    { unfold unscaled, optimalVelocity.
      assert (Ha : forall o : Q, Qabs (o + delta - o) == Qabs (o - delta - o)).
      { intro o.
        setoid_replace (o + delta - o) with delta by ring.
        setoid_replace (o - delta - o) with (- delta) by ring.
        symmetry. apply Qabs_opp. }
      destruct p; rewrite Ha; reflexivity. }
    rewrite Hsym. reflexivity.
  - assert (Hsat : unscaled (50000000 + extra) v p == unscaled 50000000 v p).
    { unfold unscaled.
      assert (Hm : Qmin ((50000000 + extra) / 1000000) 50
                   == Qmin (50000000 / 1000000) 50).
      { rewrite Q.min_r.
        - rewrite Q.min_r; [reflexivity|]. discriminate.
        - apply Qle_shift_div_l; [reflexivity|]. lra. }
      rewrite Hm. reflexivity. }
    rewrite Hsat. reflexivity.
Qed.

Lemma success_probability_reachable_values_witness :
  calculateSuccessProbability 0 15 100 chemical <= 90
  /\ calculateSuccessProbability 0 15 0 chemical == 5
  /\ calculateSuccessProbability 0 (optimalVelocity chemical + 3) 100
       chemical
     == calculateSuccessProbability 0 (optimalVelocity chemical - 3) 100
          chemical
  /\ calculateSuccessProbability (50000000 + 7) 15 100 chemical
     == calculateSuccessProbability 50000000 15 100 chemical.
Proof.
  apply (success_probability_reachable_values 0 15 100 3 7 chemical);
    try split; discriminate.
Defined.

End SuccessFacts.

(** ** Splitting the path: the search is a nearest-sample search *)

Module PathSplitFacts.

Import PathSplit.

Open Scope Q_scope.

Section Search.

Variable posVec : Vector3.

(** Squared distance of a sample to the live position. *)
Definition toPos (pt : Vector3) : Q := distanceToSquared pt posVec.

(** What the loop knows after the samples [seen]: nothing yet, or the first
    nearest sample among them and its distance. *)
Definition searchInv (seen : list Vector3) (splitIndex : nat)
    (minDist : JsNum.t) : Prop :=
  match minDist with
  | JsNum.PosInf => seen = []
  | JsNum.Fin m =>
      (splitIndex < List.length seen)%nat
      /\ m == toPos (nth splitIndex seen posVec)
      /\ (forall k, (k < List.length seen)%nat ->
                    m <= toPos (nth k seen posVec))
      /\ (forall k, (k < splitIndex)%nat -> m < toPos (nth k seen posVec))
  | _ => False
  end.

(** The index is that of a nearest sample, and of the first such. *)
Definition firstNearest (l : list Vector3) (r : nat) : Prop :=
  (r < List.length l)%nat
  /\ (forall k, (k < List.length l)%nat ->
                toPos (nth r l posVec) <= toPos (nth k l posVec))
  /\ (forall k, (k < r)%nat ->
                toPos (nth r l posVec) < toPos (nth k l posVec)).

Lemma searchInv_take (seen : list Vector3) (splitIndex : nat)
    (minDist : JsNum.t) (pt : Vector3) :
  searchInv seen splitIndex minDist ->
  JsNum.ltb (JsNum.Fin (toPos pt)) minDist = true ->
  searchInv (seen ++ [pt]) (List.length seen) (JsNum.Fin (toPos pt)).
Proof.
  intros Hinv Hlt. cbn [searchInv].
  rewrite length_app. cbn [List.length].
  split; [lia|]. split; [now rewrite nth_middle|].
  destruct minDist as [| | |m]; cbn in Hinv, Hlt; try discriminate.
  - subst seen. cbn. split.
    + intros k Hk. replace k with 0%nat by lia. cbn. apply Qle_refl.
    + intros k Hk. lia.
  - apply MissionStore.Qltb_true_iff in Hlt.
    destruct Hinv as [_ [_ [Hall _]]].
    split.
    + intros k Hk.
      destruct (Nat.eq_dec k (List.length seen)) as [->|Hne].
      * rewrite nth_middle. apply Qle_refl.
      * rewrite app_nth1 by lia.
        apply Qlt_le_weak. eapply Qlt_le_trans; [exact Hlt|].
        apply Hall. lia.
    + intros k Hk. rewrite app_nth1 by lia.
      eapply Qlt_le_trans; [exact Hlt|]. now apply Hall.
Qed.

Lemma searchInv_skip (seen : list Vector3) (splitIndex : nat)
    (minDist : JsNum.t) (pt : Vector3) :
  searchInv seen splitIndex minDist ->
  JsNum.ltb (JsNum.Fin (toPos pt)) minDist = false ->
  searchInv (seen ++ [pt]) splitIndex minDist.
Proof.
  intros Hinv Hlt.
  destruct minDist as [| | |m]; cbn in Hinv, Hlt; try discriminate;
    try contradiction.
  cbn [searchInv]. rewrite length_app. cbn [List.length].
  destruct Hinv as [Hsi [Hm [Hall Hfirst]]].
  assert (Hge : m <= toPos pt).
  { apply Qnot_lt_le. intro H.
    apply MissionStore.Qltb_true_iff in H. congruence. }
  split; [lia|]. split; [now rewrite app_nth1 by lia|]. split.
  - intros k Hk.
    destruct (Nat.eq_dec k (List.length seen)) as [->|Hne].
    + now rewrite nth_middle.
    + rewrite app_nth1 by lia. apply Hall. lia.
  - intros k Hk. rewrite app_nth1 by lia. now apply Hfirst.
Qed.

Lemma splitLoop_first_nearest (rest : list Vector3) :
  forall (seen : list Vector3) (splitIndex : nat) (minDist : JsNum.t),
    searchInv seen splitIndex minDist ->
    (seen ++ rest)%list <> [] ->
    firstNearest (seen ++ rest)
      (splitLoop posVec rest (List.length seen) splitIndex minDist).
Proof.
  induction rest as [|pt rest IH]; intros seen splitIndex minDist Hinv Hne.
  - rewrite app_nil_r in *. cbn [splitLoop].
    destruct minDist as [| | |m]; cbn in Hinv; try contradiction.
    destruct Hinv as [Hsi [Hm [Hall Hfirst]]].
    split; [exact Hsi|]. split.
    + intros k Hk. rewrite <- Hm. now apply Hall.
    + intros k Hk. rewrite <- Hm. now apply Hfirst.
  - cbn [splitLoop]. fold (toPos pt).
    replace (seen ++ pt :: rest)%list with ((seen ++ [pt]) ++ rest)%list
      by (rewrite <- app_assoc; reflexivity).
    replace (S (List.length seen)) with (List.length (seen ++ [pt]))
      by (rewrite length_app; cbn; lia).
    destruct (JsNum.ltb (JsNum.Fin (toPos pt)) minDist) eqn:Hlt.
    + apply IH;
        [exact (searchInv_take seen splitIndex minDist pt Hinv Hlt)|].
      destruct seen; discriminate.
    + apply IH;
        [exact (searchInv_skip seen splitIndex minDist pt Hinv Hlt)|].
      destruct seen; discriminate.
Qed.

End Search.

(** X25.  For a path that is not empty, the split index is the index of a
    sample nearest to the live position (no sample is strictly nearer), and
    of the first such sample: every earlier sample is strictly farther. *)
Theorem split_index_is_first_nearest :
  forall (points : list Vector3) (posVec : Vector3),
    points <> [] ->
    let r := findSplitIndex points posVec in
    (r < List.length points)%nat
    /\ (forall k, (k < List.length points)%nat ->
          distanceToSquared (nth r points posVec) posVec
          <= distanceToSquared (nth k points posVec) posVec)
    /\ (forall k, (k < r)%nat ->
          distanceToSquared (nth r points posVec) posVec
          < distanceToSquared (nth k points posVec) posVec).
Proof.
  intros points posVec Hne r. subst r. unfold findSplitIndex.
  apply (splitLoop_first_nearest posVec points [] 0%nat JsNum.PosInf).
  - reflexivity.
  - exact Hne.
Qed.

Lemma split_index_is_first_nearest_witness :
  let r := findSplitIndex linePath (onLine 4) in
  (r < List.length linePath)%nat
  /\ (forall k, (k < List.length linePath)%nat ->
        distanceToSquared (nth r linePath (onLine 4)) (onLine 4)
        <= distanceToSquared (nth k linePath (onLine 4)) (onLine 4))
  /\ (forall k, (k < r)%nat ->
        distanceToSquared (nth r linePath (onLine 4)) (onLine 4)
        < distanceToSquared (nth k linePath (onLine 4)) (onLine 4)).
Proof.
  apply (split_index_is_first_nearest linePath (onLine 4)).
  discriminate.
Defined.

(** X26.  The two segments lose no sample: the future segment is the path
    from the split index on, the past segment is the path before it, and
    together they are the whole path, except when the nearest sample is the
    first one: then the past segment is that one sample, which also opens
    the future segment.  An empty path gives two empty segments. *)
Theorem split_segments_cover_path :
  forall (points : list Vector3) (posVec : Vector3),
    let r := findSplitIndex points posVec in
    atlasPathFuture points posVec = skipn r points
    /\ atlasPathPast points posVec = firstn (Nat.max 1 r) points
    /\ (atlasPathPast points posVec ++ skipn (Nat.max 1 r) points)%list
       = points
    /\ (if Nat.eqb r 0
        then atlasPathPast points posVec = firstn 1 points
             /\ atlasPathFuture points posVec = points
        else (atlasPathPast points posVec
              ++ atlasPathFuture points posVec)%list = points)
    /\ (points <> [] -> atlasPathPast points posVec <> []).
Proof.
  intros points posVec r. subst r.
  unfold atlasPathPast, atlasPathFuture.
  set (r := findSplitIndex points posVec).
  split; [reflexivity|]. split; [reflexivity|].
  split; [apply firstn_skipn|]. split.
  - destruct r as [|r]; cbn [Nat.eqb].
    + split; reflexivity.
    + replace (Nat.max 1 (S r)) with (S r) by lia. apply firstn_skipn.
  - intros Hne Hpast. destruct points as [|pt rest]; [congruence|].
    destruct (Nat.max 1 r) eqn:E; [lia|]. discriminate.
Qed.

End PathSplitFacts.

(** ** Scene composition: fallback planet positions and the two scalings *)

Module SceneFallback.

Import OrbitalMechanics ParabolicPath.

Open Scope R_scope.

(** One row of [FALLBACK_ELEMENTS]: angles in degrees, period in days. *)
Record FallbackElements := mkFallback {
  fb_a : R;
  fb_e : R;
  fb_i : R;
  fb_omega : R;
  fb_Omega : R;
  fb_M0 : R;
  fb_period : R
}.

(** [let E = M; for (iter < n) E = M + e * Math.sin(E)] *)
Fixpoint keplerIterate (n : nat) (M e : R) : R :=
  match n with
  | O => M
  | S k => M + e * sin (keplerIterate k M e)
  end.

(** The mean anomaly (radians) of the fallback computation at a time stamp
    in milliseconds. *)
Definition fallbackMeanAnomaly (currentTime : R) (el : FallbackElements)
    : R :=
  let currentJulianDate := currentTime / 86400000 + 2440587.5 in
  let epochJD := 2451545.0 in
  let daysSinceEpoch := currentJulianDate - epochJD in
  let n := 360 / fb_period el in
  (fb_M0 el + n * daysSinceEpoch) * PI / 180.

(** The eccentric anomaly after the five iterations, and the radius. *)
Definition fallbackE (currentTime : R) (el : FallbackElements) : R :=
  keplerIterate 5 (fallbackMeanAnomaly currentTime el) (fb_e el).

Definition fallbackRadius (currentTime : R) (el : FallbackElements) : R :=
  fb_a el * (1 - fb_e el * cos (fallbackE currentTime el)).

(** The calculated scene position of a planet without live data. *)
Definition fallbackPosition (currentTime : R) (el : FallbackElements)
    : R * R * R :=
  let i := fb_i el * PI / 180 in
  let omega := fb_omega el * PI / 180 in
  let Omega := fb_Omega el * PI / 180 in
  let E := fallbackE currentTime el in
  let nu := 2 * atan2 (sqrt (1 + fb_e el) * sin (E / 2))
                      (sqrt (1 - fb_e el) * cos (E / 2)) in
  let r := fallbackRadius currentTime el in
  let x_orb := r * cos nu in
  let y_orb := r * sin nu in
  let cos_Omega := cos Omega in
  let sin_Omega := sin Omega in
  let cos_i := cos i in
  let sin_i := sin i in
  let cos_omega := cos omega in
  let sin_omega := sin omega in
  let x := (cos_Omega * cos_omega - sin_Omega * sin_omega * cos_i) * x_orb
           + (- cos_Omega * sin_omega - sin_Omega * cos_omega * cos_i)
             * y_orb in
  let y := (sin_Omega * cos_omega + cos_Omega * sin_omega * cos_i) * x_orb
           + (- sin_Omega * sin_omega + cos_Omega * cos_omega * cos_i)
             * y_orb in
  let z := (sin_i * sin_omega) * x_orb + (sin_i * cos_omega) * y_orb in
  mapToScene x y z.

(** The scene position [loadAtlasData] stores for the tracked object, from
    the position of the fetched descriptor. *)
Definition atlasPositionFromDescriptor (x y z : R) : R * R * R :=
  (x * scaleAU, z * scaleAU, - y * scaleAU).

(** The scene position [fetchPlanetaryPositions] stores for it, from the
    entry of the position map. *)
Definition atlasPositionFromPositionMap (x y z : R) : R * R * R :=
  mapToScene x y z.

(** *** The sine is 1-Lipschitz *)

Lemma sin_abs_le (t : R) : Rabs (sin t) <= Rabs t.
Proof.
  assert (Hpos : forall u, 0 <= u -> Rabs (sin u) <= u).
  { intros u Hu. apply Rabs_le. split.
    - destruct (Rle_dec u 1) as [H1|H1].
      + assert (0 <= sin u)
          by (apply sin_ge_0; [exact Hu|generalize PI2_3_2; lra]).
        lra.
      + generalize (SIN_bound u). lra.
    - destruct (Req_dec u 0) as [->|Hne]; [rewrite sin_0; lra|].
      left. apply sin_lt_x. lra. }
  destruct (Rle_dec 0 t) as [Ht|Ht].
  - rewrite (Rabs_pos_eq t) by exact Ht. now apply Hpos.
  - rewrite (Rabs_left t) by lra.
    rewrite <- (Rabs_Ropp (sin t)), <- sin_neg. apply Hpos. lra.
Qed.

Lemma sin_lipschitz (u v : R) : Rabs (sin u - sin v) <= Rabs (u - v).
Proof.
  rewrite form4.
  replace (2 * cos ((u + v) / 2) * sin ((u - v) / 2))
    with (cos ((u + v) / 2) * (2 * sin ((u - v) / 2))) by ring.
  rewrite Rabs_mult.
  assert (Hc : Rabs (cos ((u + v) / 2)) <= 1)
    by (apply Rabs_le; generalize (COS_bound ((u + v) / 2)); lra).
  assert (Hs : Rabs (2 * sin ((u - v) / 2)) <= Rabs (u - v)).
  { rewrite Rabs_mult, (Rabs_pos_eq 2) by lra.
    pose proof (sin_abs_le ((u - v) / 2)) as H.
    replace (Rabs ((u - v) / 2)) with (Rabs (u - v) / 2) in H.
    - lra.
    - unfold Rdiv. rewrite Rabs_mult, (Rabs_pos_eq (/ 2)) by lra.
      reflexivity. }
  pose proof (Rabs_pos (cos ((u + v) / 2))).
  pose proof (Rabs_pos (2 * sin ((u - v) / 2))).
  nra.
Qed.

Lemma keplerIterate_step (n : nat) (M e : R) :
  0 <= e ->
  Rabs (keplerIterate (S n) M e - keplerIterate n M e) <= e ^ S n.
Proof.
  intro He. induction n as [|n IH].
  - cbn [keplerIterate].
    replace (M + e * sin M - M) with (e * sin M) by ring.
    rewrite Rabs_mult, (Rabs_pos_eq e) by exact He.
    assert (Rabs (sin M) <= 1)
      by (apply Rabs_le; generalize (SIN_bound M); lra).
    simpl. nra.
  - cbn [keplerIterate] in *.
    set (a := keplerIterate n M e) in *.
    replace (M + e * sin (M + e * sin a) - (M + e * sin a))
      with (e * (sin (M + e * sin a) - sin a)) by ring.
    rewrite Rabs_mult, (Rabs_pos_eq e) by exact He.
    pose proof (sin_lipschitz (M + e * sin a) a) as HL.
    change (e ^ S (S n)) with (e * e ^ S n).
    apply Rmult_le_compat_l; [exact He|]. lra.
Qed.

Lemma keplerIterate_residual (n : nat) (M e : R) :
  0 <= e ->
  Rabs (keplerIterate (S n) M e - e * sin (keplerIterate (S n) M e) - M)
  <= e ^ S (S n).
Proof.
  intro He.
  pose proof (keplerIterate_step n M e He) as Hstep.
  cbn [keplerIterate] in *.
  set (a := keplerIterate n M e) in *.
  replace (M + e * sin a - e * sin (M + e * sin a) - M)
    with (e * (sin a - sin (M + e * sin a))) by ring.
  rewrite Rabs_mult, (Rabs_pos_eq e) by exact He.
  change (e ^ S (S n)) with (e * e ^ S n).
  apply Rmult_le_compat_l; [exact He|].
  eapply Rle_trans; [apply sin_lipschitz|].
  rewrite Rabs_minus_sym. exact Hstep.
Qed.

(** X27.  The five fixed-point iterations of the fallback planet position
    solve Kepler's equation up to [e^6]: the eccentric anomaly [E] they give
    satisfies [|E - e sin E - M| <= e^6] (about 8e-5 for Mercury, the most
    eccentric planet of the table), and the radius [a (1 - e cos E)] they
    lead to lies between the periapsis and apoapsis distances. *)
Theorem fallback_kepler_accuracy :
  forall (currentTime : R) (el : FallbackElements),
    0 <= fb_a el -> 0 <= fb_e el < 1 ->
    let M := fallbackMeanAnomaly currentTime el in
    let E := fallbackE currentTime el in
    Rabs (E - fb_e el * sin E - M) <= fb_e el ^ 6
    /\ fb_a el * (1 - fb_e el) <= fallbackRadius currentTime el
       <= fb_a el * (1 + fb_e el).
Proof.
  intros currentTime el Ha He M E. subst M E. split.
  - unfold fallbackE. apply (keplerIterate_residual 4). lra.
  - unfold fallbackRadius.
    pose proof (COS_bound (fallbackE currentTime el)) as Hc.
    split; apply Rmult_le_compat_l; try exact Ha; nra.
Qed.

Definition mercuryFallback : FallbackElements :=
  mkFallback 0.387 0.206 7.0 29.1 48.3 174.8 88.

Lemma fallback_kepler_accuracy_witness :
  let M := fallbackMeanAnomaly 0 mercuryFallback in
  let E := fallbackE 0 mercuryFallback in
  Rabs (E - fb_e mercuryFallback * sin E - M) <= fb_e mercuryFallback ^ 6
  /\ fb_a mercuryFallback * (1 - fb_e mercuryFallback)
     <= fallbackRadius 0 mercuryFallback
     <= fb_a mercuryFallback * (1 + fb_e mercuryFallback).
Proof.
  apply (fallback_kepler_accuracy 0 mercuryFallback); simpl; lra.
Defined.

(** X28.  The tracked object's scene position is scaled in two different
    ways: [loadAtlasData] maps the out-of-plane coordinate by 30, the
    position poll maps it by 180 (the vertical exaggeration the path and the
    planets use).  The two agree exactly when the object is in the ecliptic
    plane; otherwise the position stored from the descriptor is six times
    closer to the plane than the one stored from the position map. *)
Theorem atlas_position_scaled_two_ways :
  forall x y z : R,
    (atlasPositionFromDescriptor x y z = atlasPositionFromPositionMap x y z
     <-> z = 0)
    /\ snd (fst (atlasPositionFromPositionMap x y z))
       = 6 * snd (fst (atlasPositionFromDescriptor x y z))
    /\ fst (fst (atlasPositionFromPositionMap x y z))
       = fst (fst (atlasPositionFromDescriptor x y z))
    /\ snd (atlasPositionFromPositionMap x y z)
       = snd (atlasPositionFromDescriptor x y z).
Proof.
  intros x y z.
  unfold atlasPositionFromDescriptor, atlasPositionFromPositionMap,
    mapToScene, scaleAU, verticalScale. cbn [fst snd].
  split; [|split; [ring|split; reflexivity]].
  split.
  - intro H. injection H as H. lra.
  - intros ->. f_equal. f_equal. ring.
Qed.

End SceneFallback.

(** ** The mission panel (components/MissionInterface) *)

Module MissionInterface.

Import MissionStore.

Open Scope Z_scope.

Definition payloadEqb (p t : PayloadType) : bool :=
  match p, t with
  | camera, camera | spectrometer, spectrometer | probe, probe => true
  | _, _ => false
  end.

(** [payload.includes(type)] *)
Definition includes (payload : list PayloadType) (t : PayloadType) : bool :=
  existsb (fun p => payloadEqb p t) payload.

(** The payload a checkbox change asks for; [checked] is the new state of
    the box. *)
Definition newPayload (payload : list PayloadType) (t : PayloadType)
    (checked : bool) : list PayloadType :=
  if checked then (payload ++ [t])%list
  else filter (fun p => negb (payloadEqb p t)) payload.

(** A click on the box of [t]: the box shows [payload.includes(t)], so the
    click turns it into the opposite. *)
Definition clickPayload (payload : list PayloadType) (t : PayloadType)
    : list PayloadType :=
  newPayload payload t (negb (includes payload t)).

(** The fields a change of the panel carries ([Partial<MissionConfig>]). *)
Record ConfigUpdates := mkUpdates {
  upd_launchWindow : option string;
  upd_propulsionType : option PropulsionType;
  upd_payload : option (list PayloadType);
  upd_trajectoryType : option TrajectoryType
}.

Definition orKeep {A : Type} (update : option A) (current : A) : A :=
  match update with
  | Some v => v
  | None => current
  end.

(** [handleConfigChange]: the configuration given to [setMissionConfig],
    [{ ...missionConfig, ...updates }]. *)
Definition handleConfigChange (missionConfig : MissionConfig)
    (updates : ConfigUpdates) : MissionConfig :=
  mkMissionConfig
    (orKeep (upd_launchWindow updates) (launchWindow missionConfig))
    (orKeep (upd_propulsionType updates) (propulsionType missionConfig))
    (orKeep (upd_payload updates) (payload missionConfig))
    match upd_trajectoryType updates with
    | Some t => Some t
    | None => trajectoryType missionConfig
    end
    (fuelCapacity missionConfig)
    (missionDuration missionConfig).

(** The colour of the success read-out, when it is shown at all. *)
Inductive Colour := green | yellow | red.

Definition successColour (status : MissionStatus) : option Colour :=
  if JsNum.truthy (successProbability status) then
    match successProbability status with
    | Some p =>
        Some (if JsNum.ltb (JsNum.of_Z 70) p then green
              else if JsNum.ltb (JsNum.of_Z 40) p then yellow
              else red)
    | None => None
    end
  else None.

(** *** Payload clicks *)

Lemma payloadEqb_eq (p t : PayloadType) : payloadEqb p t = true <-> p = t.
Proof. destruct p, t; cbn; split; intro H; congruence. Qed.

Lemma includes_In (payload : list PayloadType) (t : PayloadType) :
  includes payload t = true <-> In t payload.
Proof.
  unfold includes. rewrite existsb_exists. split.
  - intros [p [Hin Heq]]. apply payloadEqb_eq in Heq. now subst.
  - intro H. exists t. split; [exact H|]. now apply payloadEqb_eq.
Qed.

Lemma removed_In (payload : list PayloadType) (t o : PayloadType) :
  In o (filter (fun p => negb (payloadEqb p t)) payload)
  <-> In o payload /\ o <> t.
Proof.
  rewrite filter_In, negb_true_iff. split; intros [H1 H2]; split; auto.
  - intro Heq. apply payloadEqb_eq in Heq. congruence.
  - destruct (payloadEqb o t) eqn:E; [|reflexivity].
    apply payloadEqb_eq in E. contradiction.
Qed.

Lemma click_NoDup (payload : list PayloadType) (t : PayloadType) :
  NoDup payload -> NoDup (clickPayload payload t).
Proof.
  intro Hnd. unfold clickPayload, newPayload.
  destruct (includes payload t) eqn:E; cbn [negb].
  - now apply NoDup_filter.
  - apply NoDup_app; [exact Hnd|repeat constructor; intros []|].
    intros a Ha [<-|[]].
    apply includes_In in Ha. congruence.
Qed.

Lemma NoDup_at_most_three (payload : list PayloadType) :
  NoDup payload -> (List.length payload <= 3)%nat.
Proof.
  intro Hnd.
  apply (NoDup_incl_length Hnd (l' := [camera; spectrometer; probe])).
  intros p _. destruct p; cbn; auto.
Qed.

(** X29.  Clicking payload boxes never duplicates an instrument.  From a
    payload without duplicates, after any sequence of clicks the payload has
    no duplicates and at most three items; and one click on the box of [t]
    flips whether [t] is carried and changes nothing for the other
    instruments. *)
Theorem payload_clicks_keep_instruments_distinct :
  forall (payload clicks : list PayloadType) (t other : PayloadType),
    NoDup payload ->
    other <> t ->
    NoDup (fold_left clickPayload clicks payload)
    /\ (List.length (fold_left clickPayload clicks payload) <= 3)%nat
    /\ (In t (clickPayload payload t) <-> ~ In t payload)
    /\ (In other (clickPayload payload t) <-> In other payload).
Proof.
  intros payload clicks t other Hnd Hne.
  assert (Hfold : NoDup (fold_left clickPayload clicks payload)).
  { revert payload Hnd. induction clicks as [|c clicks IH];
      intros payload Hnd; [exact Hnd|].
    cbn [fold_left]. apply IH. now apply click_NoDup. }
  split; [exact Hfold|]. split; [now apply NoDup_at_most_three|].
  unfold clickPayload, newPayload.
  destruct (includes payload t) eqn:E; cbn [negb].
  - apply includes_In in E. rewrite !removed_In. tauto.
  - assert (Hnot : ~ In t payload)
      by (intro H; apply includes_In in H; congruence).
    rewrite !in_app_iff. cbn. split; [tauto|].
    split; [|tauto]. intros [H|[H|[]]]; [exact H|congruence].
Qed.

Lemma payload_clicks_keep_instruments_distinct_witness :
  NoDup (fold_left clickPayload [probe; camera; probe] [camera])
  /\ (List.length (fold_left clickPayload [probe; camera; probe] [camera])
      <= 3)%nat
  /\ (In probe (clickPayload [camera] probe) <-> ~ In probe [camera])
  /\ (In camera (clickPayload [camera] probe) <-> In camera [camera]).
Proof.
  apply (payload_clicks_keep_instruments_distinct [camera]
           [probe; camera; probe] probe camera).
  - repeat constructor. intros [].
  - discriminate.
Defined.

(** *** The success read-out after a start *)

Lemma start_status_score (D : string -> option Z) (env : Env)
    (state : MissionContextState) :
  exists st,
    missionStatus (missionReducer D env state START_SIMULATION) = Some st
    /\ successProbability st
       = Some (JsNum.of_Z (startSuccessRate D env (missionConfig state))).
Proof.
  cbn [missionReducer missionStatus]. eexists. split; [reflexivity|].
  cbn [successProbability]. now rewrite round_of_Z.
Qed.

(** X30.  Right after a start the success read-out is shown and is never
    red: it is green when the start score is above 70 and yellow otherwise
    (the score being at least 60). *)
Theorem start_readout_is_never_red :
  forall (D : string -> option Z) (env : Env) (state : MissionContextState),
    exists st,
      missionStatus (missionReducer D env state START_SIMULATION) = Some st
      /\ successColour st
         = Some (if 70 <? startSuccessRate D env (missionConfig state)
                 then green else yellow)
      /\ successColour st <> Some red
      /\ successColour st <> None.
Proof.
  intros D env state.
  destruct (start_status_score D env state) as [st [Hst Hscore]].
  exists st. split; [exact Hst|].
  set (score := startSuccessRate D env (missionConfig state)) in *.
  assert (Hband : 60 <= score <= 95).
  { subst score. rewrite startSuccessRate_spec. apply spec_startScore_band. }
  assert (Hcol : successColour st
                 = Some (if 70 <? score then green else yellow)).
  { unfold successColour. rewrite Hscore. cbn [JsNum.truthy JsNum.of_Z].
    replace (Qeq_bool (inject_Z score) 0) with false.
    - cbn [negb]. unfold JsNum.of_Z. cbn [JsNum.ltb]. rewrite !Qltb_Zltb.
      destruct (70 <? score) eqn:E7; [reflexivity|].
      replace (40 <? score) with true by (symmetry; apply Z.ltb_lt; lia).
      reflexivity.
    - symmetry. apply not_true_is_false. intro H.
      apply Qeq_bool_iff in H. unfold Qeq in H. cbn in H. lia. }
  rewrite Hcol. split; [reflexivity|].
  split; destruct (70 <? score); discriminate.
Qed.

End MissionInterface.
